(** * localstorage-slim: the TTL / obfuscation wrapper of [src/ls.ts]

    A shallow embedding of [ls.ts] (the operations [set], [get], [flush],
    [poll], the obfuscator [obfus] and the availability probe
    [supportsLS]) together with the part of the JavaScript platform the
    operations rely on: UTF-16 strings, [JSON.stringify], [JSON.parse],
    [localStorage] and the clock.

    Conventions of the model.
    - A JavaScript string is the list of its UTF-16 code units, each a [Z]
      in [0, 65536).
    - A JavaScript number is modelled by an integer ([Z]), which is exact
      for the safe integers (below 2^53 in absolute value, so for every
      timestamp).  A number read from a literal with a fraction or an
      exponent is kept as that literal ([VNumLit]); [NaN] and the infinities
      are outside the model.  The statements about values are made for
      [wf_value] values, whose numbers are safe integers.
    - An object is the list of its own properties in insertion order (the
      integer-keys-first enumeration order of JavaScript is not modelled).
    - [new Function(...)] in [flush] is taken to succeed; a callback text
      that is not JavaScript is outside the model.
    - A call that can throw returns a [result]. *)

From Stdlib Require Import ZArith List Bool Ascii String Lia.
From Stdlib Require Import DecimalZ DecimalPos DecimalFacts.
Import ListNotations.
Local Open Scope Z_scope.
Set Warnings "-register-all".

(** ** Strings as UTF-16 code units *)

Abbreviation text := (list Z) (only parsing).

(** [String.fromCharCode(n)]: the argument is reduced modulo 2^16. *)
Definition fromCharCode (n : Z) : Z := n mod 65536.

Fixpoint lit (s : string) : text :=
  match s with
  | EmptyString => []
  | String a r => Z.of_N (N_of_ascii a) :: lit r
  end.

Fixpoint text_eqb (a b : text) : bool :=
  match a, b with
  | [], [] => true
  | x :: a', y :: b' => (x =? y) && text_eqb a' b'
  | _, _ => false
  end.

Definition is_high_surrogate (c : Z) : bool := (55296 <=? c) && (c <=? 56319).
Definition is_low_surrogate (c : Z) : bool := (56320 <=? c) && (c <=? 57343).

(** ** Results of calls that may throw *)

Inductive result (A : Type) : Type :=
| Ret (a : A)
| Throw.
Arguments Ret {A} a.
Arguments Throw {A}.

Definition bind {A B : Type} (r : result A) (k : A -> result B) : result B :=
  match r with
  | Ret a => k a
  | Throw => Throw
  end.

Notation "x <- r ;; k" := (bind r (fun x => k))
  (at level 61, r at next level, right associativity).

(** ** JavaScript values

    [VNumLit t] is a number that is not written as an integer, kept as its
    JSON literal [t]; [VFun src] is a function with source text [src];
    [VCyclic] stands for a reference back to an enclosing object, the case
    on which [JSON.stringify] throws a [TypeError]. *)

Inductive value : Type :=
| VUndefined
| VNull
| VBool (b : bool)
| VNum (n : Z)
| VNumLit (literal : text)
| VStr (s : text)
| VArr (l : list value)
| VObj (fields : list (text * value))
| VFun (src : text)
| VCyclic.

(** Property lookup [o[k]] and the [in] operator on own properties. *)
Fixpoint lookup (k : text) (fs : list (text * value)) : option value :=
  match fs with
  | [] => None
  | (k', v) :: r => if text_eqb k k' then Some v else lookup k r
  end.

Definition has_key (k : text) (fs : list (text * value)) : bool :=
  match lookup k fs with Some _ => true | None => false end.

(** Assignment [o[k] = v]: an existing property keeps its place, a new one is
    appended. *)
Fixpoint assign (k : text) (v : value) (fs : list (text * value))
  : list (text * value) :=
  match fs with
  | [] => [(k, v)]
  | (k', v') :: r =>
      if text_eqb k k' then (k', v) :: r else (k', v') :: assign k v r
  end.

(** ** [JSON.stringify] *)

Definition hex_digit (d : Z) : Z := if d <? 10 then 48 + d else 87 + d.

Definition hex4 (c : Z) : text :=
  [hex_digit (c / 4096); hex_digit ((c / 256) mod 16);
   hex_digit ((c / 16) mod 16); hex_digit (c mod 16)].

(** QuoteJSONString, without the surrounding quotes: the string is read by
    code points, so a surrogate pair is copied and a lone surrogate is
    escaped. *)
Fixpoint quote_chars (s : text) : text :=
  match s with
  | [] => []
  | c :: r =>
      if c =? 8 then 92 :: 98 :: quote_chars r
      else if c =? 9 then 92 :: 116 :: quote_chars r
      else if c =? 10 then 92 :: 110 :: quote_chars r
      else if c =? 12 then 92 :: 102 :: quote_chars r
      else if c =? 13 then 92 :: 114 :: quote_chars r
      else if c =? 34 then 92 :: 34 :: quote_chars r
      else if c =? 92 then 92 :: 92 :: quote_chars r
      else if c <? 32 then 92 :: 117 :: hex4 c ++ quote_chars r
      else if is_high_surrogate c then
        match r with
        | d :: r' =>
            if is_low_surrogate d then c :: d :: quote_chars r'
            else 92 :: 117 :: hex4 c ++ quote_chars r
        | [] => 92 :: 117 :: hex4 c
        end
      else if is_low_surrogate c then 92 :: 117 :: hex4 c ++ quote_chars r
      else c :: quote_chars r
  end.

Definition QuoteJSONString (s : text) : text := 34 :: quote_chars s ++ [34].

Fixpoint uint_text (d : Decimal.uint) : text :=
  match d with
  | Decimal.Nil => []
  | Decimal.D0 r => 48 :: uint_text r
  | Decimal.D1 r => 49 :: uint_text r
  | Decimal.D2 r => 50 :: uint_text r
  | Decimal.D3 r => 51 :: uint_text r
  | Decimal.D4 r => 52 :: uint_text r
  | Decimal.D5 r => 53 :: uint_text r
  | Decimal.D6 r => 54 :: uint_text r
  | Decimal.D7 r => 55 :: uint_text r
  | Decimal.D8 r => 56 :: uint_text r
  | Decimal.D9 r => 57 :: uint_text r
  end.

(** Number::toString on an integer. *)
Definition number_text (n : Z) : text :=
  match Z.to_int n with
  | Decimal.Pos d => uint_text d
  | Decimal.Neg d => 45 :: uint_text d
  end.

Fixpoint join_comma (l : list text) : text :=
  match l with
  | [] => []
  | [x] => x
  | x :: r => x ++ 44 :: join_comma r
  end.

(** SerializeJSONArray and SerializeJSONObject over the serialization [ser]
    of the members: an array element without a JSON form is written as
    [null], an object property without one is left out. *)
Definition or_null (o : option text) : text :=
  match o with
  | Some t => t
  | None => lit "null"
  end.

Definition serialize_elems (ser : value -> result (option text))
  : list value -> result (list text) :=
  fix elems (l : list value) : result (list text) :=
    match l with
    | [] => Ret []
    | x :: r =>
        o <- ser x ;;
        ts <- elems r ;;
        Ret (or_null o :: ts)
    end.

Definition serialize_members (ser : value -> result (option text))
  : list (text * value) -> result (list text) :=
  fix members (fs : list (text * value)) : result (list text) :=
    match fs with
    | [] => Ret []
    | (k, x) :: r =>
        o <- ser x ;;
        ts <- members r ;;
        Ret (match o with
             | Some t => (QuoteJSONString k ++ 58 :: t) :: ts
             | None => ts
             end)
    end.

(** SerializeJSONProperty: [Ret None] is the result [undefined] (the value
    has no JSON form), [Throw] a [TypeError].  A number literal is written
    as it was read. *)
Fixpoint serialize (v : value) : result (option text) :=
  match v with
  | VUndefined => Ret None
  | VFun _ => Ret None
  | VCyclic => Throw
  | VNull => Ret (Some (lit "null"))
  | VBool true => Ret (Some (lit "true"))
  | VBool false => Ret (Some (lit "false"))
  | VNum n => Ret (Some (number_text n))
  | VNumLit t => Ret (Some t)
  | VStr s => Ret (Some (QuoteJSONString s))
  | VArr l =>
      parts <- serialize_elems serialize l ;;
      Ret (Some (91 :: join_comma parts ++ [93]))
  | VObj fs =>
      parts <- serialize_members serialize fs ;;
      Ret (Some (123 :: join_comma parts ++ [125]))
  end.

Definition JSON_stringify (v : value) : result (option text) := serialize v.

(** ** [JSON.parse] *)

Definition is_ws (c : Z) : bool :=
  (c =? 32) || (c =? 9) || (c =? 10) || (c =? 13).

Fixpoint skip_ws (s : text) : text :=
  match s with
  | c :: r => if is_ws c then skip_ws r else s
  | [] => []
  end.

(** [expect w s]: the rest of [s] after the prefix [w]. *)
Fixpoint expect (w s : text) : option text :=
  match w with
  | [] => Some s
  | a :: w' =>
      match s with
      | c :: r => if c =? a then expect w' r else None
      | [] => None
      end
  end.

Definition unhex (c : Z) : option Z :=
  if (48 <=? c) && (c <=? 57) then Some (c - 48)
  else if (97 <=? c) && (c <=? 102) then Some (c - 87)
  else if (65 <=? c) && (c <=? 70) then Some (c - 55)
  else None.

Definition unhex4 (a b c d : Z) : option Z :=
  match unhex a, unhex b, unhex c, unhex d with
  | Some x, Some y, Some z, Some w => Some (4096 * x + 256 * y + 16 * z + w)
  | _, _, _, _ => None
  end.

Definition unescape (e : Z) : option Z :=
  if e =? 34 then Some 34
  else if e =? 92 then Some 92
  else if e =? 47 then Some 47
  else if e =? 98 then Some 8
  else if e =? 102 then Some 12
  else if e =? 110 then Some 10
  else if e =? 114 then Some 13
  else if e =? 116 then Some 9
  else None.

(** The characters of a JSON string after its opening quote, up to and
    including the closing quote. *)
Fixpoint parse_chars (s : text) : option (text * text) :=
  match s with
  | [] => None
  | c :: r =>
      if c =? 34 then Some ([], r)
      else if c =? 92 then
        match r with
        | [] => None
        | e :: r1 =>
            if e =? 117 then
              match r1 with
              | h1 :: h2 :: h3 :: h4 :: r2 =>
                  match unhex4 h1 h2 h3 h4, parse_chars r2 with
                  | Some u, Some (k, r3) => Some (u :: k, r3)
                  | _, _ => None
                  end
              | _ => None
              end
            else
              match unescape e, parse_chars r1 with
              | Some u, Some (k, r3) => Some (u :: k, r3)
              | _, _ => None
              end
        end
      else if c <? 32 then None
      else
        match parse_chars r with
        | Some (k, r3) => Some (c :: k, r3)
        | None => None
        end
  end.

Definition digit_cons (c : Z) (d : Decimal.uint) : Decimal.uint :=
  if c =? 48 then Decimal.D0 d else if c =? 49 then Decimal.D1 d
  else if c =? 50 then Decimal.D2 d else if c =? 51 then Decimal.D3 d
  else if c =? 52 then Decimal.D4 d else if c =? 53 then Decimal.D5 d
  else if c =? 54 then Decimal.D6 d else if c =? 55 then Decimal.D7 d
  else if c =? 56 then Decimal.D8 d else Decimal.D9 d.

Definition is_digit (c : Z) : bool := (48 <=? c) && (c <=? 57).

Fixpoint digits (s : text) : Decimal.uint * text :=
  match s with
  | c :: r =>
      if is_digit c then let (d, r') := digits r in (digit_cons c d, r')
      else (Decimal.Nil, s)
  | [] => (Decimal.Nil, [])
  end.

(** The run of digits at the head of a text, as text. *)
Fixpoint digit_run (s : text) : text * text :=
  match s with
  | c :: r =>
      if is_digit c then let (ds, r') := digit_run r in (c :: ds, r')
      else ([], s)
  | [] => ([], [])
  end.

(** The optional fraction and the optional exponent of a number literal. *)
Definition number_tail (s : text) : option (text * text) :=
  match
    match s with
    | c :: r =>
        if c =? 46 then
          match digit_run r with
          | ([], _) => None
          | (ds, r') => Some (46 :: ds, r')
          end
        else Some ([], s)
    | [] => Some ([], [])
    end
  with
  | None => None
  | Some (frac, s1) =>
      match s1 with
      | c :: r =>
          if (c =? 101) || (c =? 69) then
            let (sign, r1) :=
              match r with
              | d :: r' => if (d =? 43) || (d =? 45) then ([d], r') else ([], r)
              | [] => ([], [])
              end in
            match digit_run r1 with
            | ([], _) => None
            | (ds, r2) => Some (frac ++ c :: sign ++ ds, r2)
            end
          else Some (frac, s1)
      | [] => Some (frac, [])
      end
  end.

(** An integer literal ends where no fraction and no exponent follows. *)
Definition ends_number (s : text) : bool :=
  match s with
  | c :: _ => negb ((c =? 46) || (c =? 101) || (c =? 69))
  | [] => true
  end.

Definition no_leading_zero (d : Decimal.uint) : bool :=
  match d with
  | Decimal.Nil => false
  | Decimal.D0 Decimal.Nil => true
  | Decimal.D0 _ => false
  | _ => true
  end.

(** A number with a fraction or an exponent, after its sign and integer
    digits [d]. *)
Definition number_lit (sign : text) (d : Decimal.uint) (r : text)
  : option (value * text) :=
  if no_leading_zero d then
    match number_tail r with
    | Some (tl, r') => Some (VNumLit (sign ++ uint_text d ++ tl), r')
    | None => None
    end
  else None.

Definition parse_number (s : text) : option (value * text) :=
  match s with
  | c :: r =>
      if c =? 45 then
        let (d, r') := digits r in
        if no_leading_zero d && ends_number r'
        then Some (VNum (Z.of_int (Decimal.Neg d)), r')
        else number_lit [45] d r'
      else
        let (d, r') := digits s in
        if no_leading_zero d && ends_number r'
        then Some (VNum (Z.of_int (Decimal.Pos d)), r')
        else number_lit [] d r'
  | [] => None
  end.

(** The elements of an array after the first check for [']'], and the
    members of an object after the first check for ['}'], over the parser
    [pv] of one value.  [n] bounds the number of elements.  Members are
    stored with [assign], so a repeated key keeps its last value. *)
Fixpoint parse_elems (pv : text -> option (value * text)) (n : nat)
  (s : text) : option (list value * text) :=
  match n with
  | O => None
  | S n' =>
      match pv s with
      | None => None
      | Some (v, s1) =>
          match skip_ws s1 with
          | [] => None
          | c :: s2 =>
              if c =? 44 then
                match parse_elems pv n' s2 with
                | Some (vs, s3) => Some (v :: vs, s3)
                | None => None
                end
              else if c =? 93 then Some ([v], s2)
              else None
          end
      end
  end.

Fixpoint parse_members (pv : text -> option (value * text)) (n : nat)
  (acc : list (text * value)) (s : text)
  : option (list (text * value) * text) :=
  match n with
  | O => None
  | S n' =>
      match skip_ws s with
      | [] => None
      | q :: s0 =>
          if q =? 34 then
            match parse_chars s0 with
            | None => None
            | Some (k, s1) =>
                match skip_ws s1 with
                | [] => None
                | c :: s2 =>
                    if c =? 58 then
                      match pv s2 with
                      | None => None
                      | Some (v, s3) =>
                          match skip_ws s3 with
                          | [] => None
                          | d :: s4 =>
                              if d =? 44 then
                                parse_members pv n' (assign k v acc) s4
                              else if d =? 125 then
                                Some (assign k v acc, s4)
                              else None
                          end
                      end
                    else None
                end
            end
          else None
      end
  end.

(** [parse_value fuel s] reads one JSON value at the head of [s] (after
    white space) and returns it with the rest of the text.  [fuel] bounds the
    nesting depth and the number of elements of one array or object; the
    length of the text is always enough (see [JSON_parse]). *)
Fixpoint parse_value (fuel : nat) (s : text) : option (value * text) :=
  match fuel with
  | O => None
  | S f =>
      match skip_ws s with
      | [] => None
      | c :: r =>
          if c =? 110 then
            match expect (lit "ull") r with
            | Some r' => Some (VNull, r') | None => None
            end
          else if c =? 116 then
            match expect (lit "rue") r with
            | Some r' => Some (VBool true, r') | None => None
            end
          else if c =? 102 then
            match expect (lit "alse") r with
            | Some r' => Some (VBool false, r') | None => None
            end
          else if c =? 34 then
            match parse_chars r with
            | Some (k, r') => Some (VStr k, r') | None => None
            end
          else if c =? 91 then
            match skip_ws r with
            | [] => None
            | c1 :: r1 =>
                if c1 =? 93 then Some (VArr [], r1)
                else
                  match parse_elems (parse_value f) f r with
                  | Some (vs, r') => Some (VArr vs, r')
                  | None => None
                  end
            end
          else if c =? 123 then
            match skip_ws r with
            | [] => None
            | c1 :: r1 =>
                if c1 =? 125 then Some (VObj [], r1)
                else
                  match parse_members (parse_value f) f [] r with
                  | Some (fs, r') => Some (VObj fs, r')
                  | None => None
                  end
            end
          else parse_number (c :: r)
      end
  end.

(** [JSON.parse]: one value, then only white space; anything else is a
    [SyntaxError]. *)
Definition JSON_parse (s : text) : result value :=
  match parse_value (S (List.length s)) s with
  | Some (v, r) => match skip_ws r with [] => Ret v | _ => Throw end
  | None => Throw
  end.

Definition stringify_parse (v : value) : result value :=
  o <- JSON_stringify v ;;
  match o with Some t => JSON_parse t | None => Throw end.

(** ** JavaScript coercions used by [ls.ts] *)

(** ToNumber, with [None] for [NaN].  It is exact on [number_like] values;
    strings, arrays, objects and number literals are taken to [NaN], their
    numeric reading is outside the model. *)
Definition ToNumber (v : value) : option Z :=
  match v with
  | VNull => Some 0
  | VBool true => Some 1
  | VBool false => Some 0
  | VNum n => Some n
  | _ => None
  end.

Definition number_like (v : value) : bool :=
  match v with
  | VStr _ | VArr _ | VObj _ | VNumLit _ => false
  | _ => true
  end.

(** [a > b] with [a] a number: false as soon as [b] reads as [NaN]. *)
Definition js_gt (a : Z) (b : value) : bool :=
  match ToNumber b with
  | Some n => n <? a
  | None => false
  end.

(** ToBoolean (a number literal is taken to be non-zero). *)
Definition truthy (v : value) : bool :=
  match v with
  | VUndefined | VNull => false
  | VBool b => b
  | VNum n => negb (n =? 0)
  | VStr s => match s with [] => false | _ => true end
  | _ => true
  end.

(** The spread [[...str]] of a string: its code points, each one or two
    code units long. *)
Fixpoint spread (s : text) : list text :=
  match s with
  | [] => []
  | c :: r =>
      match r with
      | d :: r' =>
          if is_high_surrogate c && is_low_surrogate d
          then [c; d] :: spread r' else [c] :: spread r
      | [] => [[c]]
      end
  end.

(** [x.charCodeAt(0)]: [None] is [NaN] (the empty string). *)
Definition charCodeAt0 (x : text) : option Z :=
  match x with
  | c :: _ => Some c
  | [] => None
  end.

(** ** [ls.ts]: the obfuscator *)

(** [const APX = String.fromCharCode(0)] *)
Definition APX : text := [fromCharCode 0].

(** [String.fromCharCode(x.charCodeAt(0) + key)]; an undefined key or an
    empty [x] makes the sum [NaN], which [fromCharCode] takes to 0. *)
Definition shift_char (key : option Z) (up : bool) (x : text) : Z :=
  match charCodeAt0 x, key with
  | Some c, Some k => fromCharCode (if up then c + k else c - k)
  | _, _ => fromCharCode 0
  end.

Definition Encrypter := value -> option Z -> result value.
Definition Decrypter := value -> option Z -> result value.

(** The elements of an iterable whose members all have [charCodeAt]: a
    string, or an array of strings.  Anything else makes the spread or the
    call throw a [TypeError]. *)
Fixpoint strings_of (l : list value) : result (list text) :=
  match l with
  | [] => Ret []
  | VStr x :: r => xs <- strings_of r ;; Ret (x :: xs)
  | _ :: _ => Throw
  end.

Definition iterate (str : value) : result (list text) :=
  match str with
  | VStr s => Ret (spread s)
  | VArr l => strings_of l
  | _ => Throw
  end.

Definition obfus (str : value) (key : option Z) (encrypt : bool)
  : result value :=
  if encrypt then
    o <- JSON_stringify str ;;
    match o with
    | Some t => Ret (VStr (map (shift_char key true) (spread t)))
    | None => Throw
    end
  else
    xs <- iterate str ;;
    JSON_parse (map (shift_char key false) xs).

Definition decrypter : Decrypter := fun str key => obfus str key false.

(** Modelled from the spec: [helpers.ts] is not among the sources; [isObject]
    recognises a value that "is itself an object" (a plain object, neither
    an array nor null). *)
Definition isObject (item : value) : bool :=
  match item with
  | VObj _ => true
  | _ => false
  end.

(** Modelled from the spec: [helpers.ts] is not among the sources; [NOOP]
    stands in for an absent codec function and does nothing. *)
Definition NOOP : Encrypter := fun _ _ => Ret VUndefined.

(** ** [ls.ts]: configuration *)

Inductive ttl_field : Type :=
| TtlUndefined
| TtlNull
| TtlNum (n : Z).

(** [LocalStorageConfig]; [None] is an absent field (an override that
    spells a field out as [undefined] is not told apart from an absent one).
    [cb] holds the source text of the callback function; [decrypter_of] is
    the field [decrypter] (the name [decrypter] is the built-in function). *)
Record LocalStorageConfig : Type := mkConfig {
  ttl : ttl_field;
  encrypt : option bool;
  decrypt : option bool;
  encrypter : option Encrypter;
  decrypter_of : option Decrypter;
  secret : option Z;
  cb : option text
}.

Definition empty_config : LocalStorageConfig :=
  mkConfig TtlUndefined None None None None None None.

(** [const config = { ttl: null, encrypt: false, encrypter: obfus, decrypter,
    secret: 75 }] *)
Definition default_config : LocalStorageConfig :=
  mkConfig TtlNull (Some false) None
           (Some (fun str key => obfus str key true)) (Some decrypter)
           (Some 75) None.

Definition or_else {A : Type} (a b : option A) : option A :=
  match a with Some _ => a | None => b end.

(** [localConfig.encrypt === false ? false
     : localConfig.encrypt || config.encrypt] *)
Definition merge_encrypt (l g : option bool) : option bool :=
  match l with
  | Some false => Some false
  | Some true => Some true
  | None => g
  end.

(** [localConfig.ttl === null ? null : localConfig.ttl || config.ttl] *)
Definition merge_ttl (l g : ttl_field) : ttl_field :=
  match l with
  | TtlNull => TtlNull
  | TtlNum n => if n =? 0 then g else TtlNum n
  | TtlUndefined => g
  end.

(** [{ ...config, ...localConfig, encrypt: ..., ttl: ... }] *)
Definition merge (config localConfig : LocalStorageConfig)
  : LocalStorageConfig :=
  {| ttl := merge_ttl (ttl localConfig) (ttl config);
     encrypt := merge_encrypt (encrypt localConfig) (encrypt config);
     decrypt := or_else (decrypt localConfig) (decrypt config);
     encrypter := or_else (encrypter localConfig) (encrypter config);
     decrypter_of := or_else (decrypter_of localConfig) (decrypter_of config);
     secret := or_else (secret localConfig) (secret config);
     cb := or_else (cb localConfig) (cb config) |}.

(** [_conf.ttl && !isNaN(_conf.ttl) && _conf.ttl > 0] *)
Definition hasTTL_of (c : LocalStorageConfig) : option Z :=
  match ttl c with
  | TtlNum n => if negb (n =? 0) && (0 <? n) then Some n else None
  | _ => None
  end.

Definition is_true (o : option bool) : bool :=
  match o with Some true => true | _ => false end.

(** ** [ls.ts]: the process state *)

(** A timer armed by [setTimeout(cb, item.ttl - Date.now(), key)]: the key,
    the delay ([None] for [NaN]) and the stored callback text. *)
Record timer : Type := mkTimer {
  timer_key : text;
  timer_delay : option Z;
  timer_cb : value
}.

(** [hasLS] is the memoised probe ([None]: not probed yet); [available] says
    whether touching [localStorage] succeeds in this environment; [storage]
    is the content of [localStorage] in key order; [now] is [Date.now()]. *)
Record state : Type := mkState {
  hasLS : option bool;
  available : bool;
  storage : list (text * text);
  cbRefs : list timer;
  config : LocalStorageConfig;
  now : Z
}.

Definition with_storage (st : state) (s : list (text * text)) : state :=
  mkState (hasLS st) (available st) s (cbRefs st) (config st) (now st).

Definition with_cbRefs (st : state) (l : list timer) : state :=
  mkState (hasLS st) (available st) (storage st) l (config st) (now st).

Definition with_hasLS (st : state) (b : option bool) : state :=
  mkState b (available st) (storage st) (cbRefs st) (config st) (now st).

Fixpoint getItem (key : text) (s : list (text * text)) : option text :=
  match s with
  | [] => None
  | (k, t) :: r => if text_eqb key k then Some t else getItem key r
  end.

Fixpoint setItem (key t : text) (s : list (text * text))
  : list (text * text) :=
  match s with
  | [] => [(key, t)]
  | (k, t') :: r =>
      if text_eqb key k then (k, t) :: r else (k, t') :: setItem key t r
  end.

Fixpoint removeItem (key : text) (s : list (text * text))
  : list (text * text) :=
  match s with
  | [] => []
  | (k, t) :: r =>
      if text_eqb key k then removeItem key r else (k, t) :: removeItem key r
  end.

(** [!str] for the result of [getItem]: absent or empty. *)
Definition falsy_item (o : option text) : bool :=
  match o with
  | None | Some [] => true
  | Some (_ :: _) => false
  end.

(** [item.name] on an object ([undefined] when the property is absent),
    [item[name] = v], and [name in item].  [ls.ts] reaches them on objects
    only. *)
Definition prop (name : text) (item : value) : value :=
  match item with
  | VObj fs => match lookup name fs with Some v => v | None => VUndefined end
  | _ => VUndefined
  end.

Definition set_prop (name : text) (v item : value) : value :=
  match item with
  | VObj fs => VObj (assign name v fs)
  | _ => item
  end.

Definition in_op (name : text) (item : value) : bool :=
  match item with
  | VObj fs => has_key name fs
  | _ => false
  end.

(** ** [ls.ts]: the eviction scheduler *)

(** The body of the [forEach] callback of [flush] for one key. *)
Definition flush_key (force : bool) (st : state) (key : text) : state :=
  let str := getItem key (storage st) in
  if falsy_item str then st
  else
    match JSON_parse (match str with Some t => t | None => [] end) with
    | Throw => st
    | Ret item =>
        if isObject item && in_op APX item then
          if js_gt (now st) (prop (lit "ttl") item) || force then
            with_storage st (removeItem key (storage st))
          else if truthy (prop (lit "cb") item) then
            with_cbRefs st
              (cbRefs st ++
               [mkTimer key
                  (match ToNumber (prop (lit "ttl") item) with
                   | Some e => Some (e - now st)
                   | None => None
                   end)
                  (prop (lit "cb") item)])
          else st
        else st
    end.

(** [Object.keys(localStorage).forEach(...)] *)
Definition flush_all (force : bool) (st : state) : state :=
  fold_left (flush_key force) (map fst (storage st)) st.

(** [flush] and [poll] once the probe is memoised. *)
Definition flush_probed (force : bool) (st : state) : state :=
  match hasLS st with
  | Some true => flush_all force st
  | _ => st
  end.

Definition poll_probed (forceFlush : bool) (st : state) : state :=
  flush_probed forceFlush (with_cbRefs st []).

(** [supportsLS]: the first call memoises the probe and runs [poll()]. *)
Definition supportsLS (st : state) : bool * state :=
  match hasLS st with
  | Some b => (b, st)
  | None =>
      let st1 := with_hasLS st (Some (available st)) in
      (available st, poll_probed false st1)
  end.

Definition flush (force : bool) (st : state) : state :=
  let (ok, st1) := supportsLS st in
  if ok then flush_all force st1 else st1.

Definition poll (forceFlush : bool) (st : state) : state :=
  flush forceFlush (with_cbRefs st []).

(** ** [ls.ts]: the entry store facade *)

Definition call (f : option Encrypter) : Encrypter :=
  match f with Some g => g | None => NOOP end.

(** The [try] block of [set] up to the text handed to [setItem]; [Throw] is
    the path into [catch].  [setItem] turns an [undefined] argument into the
    text ["undefined"]. *)
Definition encode (value0 : value) (_conf : LocalStorageConfig) (now0 : Z)
  : result text :=
  let hasTTL := hasTTL_of _conf in
  let val :=
    match hasTTL with
    | Some t => VObj [(APX, value0); (lit "ttl", VNum (now0 + t * 1000))]
    | None => value0
    end in
  val <- (if is_true (encrypt _conf) then
            match hasTTL with
            | Some _ =>
                y <- call (encrypter _conf) (prop APX val) (secret _conf) ;;
                Ret (set_prop APX y val)
            | None => call (encrypter _conf) val (secret _conf)
            end
          else Ret val) ;;
  let val :=
    match hasTTL, cb _conf with
    | Some _, Some src => set_prop (lit "cb") (VStr src) val
    | _, _ => val
    end in
  o <- JSON_stringify val ;;
  Ret (match o with Some t => t | None => lit "undefined" end).

(** [set(key, value, localConfig)]: the returned value is [undefined] on
    success and [false] otherwise. *)
Definition set (key : text) (value0 : value) (localConfig : LocalStorageConfig)
  (st : state) : value * state :=
  let (ok, st1) := supportsLS st in
  if negb ok then (VBool false, st1)
  else
    let _conf := merge (config st1) localConfig in
    match encode value0 _conf (now st1) with
    | Throw => (VBool false, st1)
    | Ret t =>
        let st2 := with_storage st1 (setItem key t (storage st1)) in
        (VUndefined,
         match hasTTL_of _conf with
         | Some _ => poll false st2
         | None => st2
         end)
    end.

(** The [try]/[catch] of [get] around the decrypter: a throw leaves [item]
    as it was. *)
Definition reverse (_conf : LocalStorageConfig) (hasTTL : bool) (item : value)
  : value :=
  if is_true (decrypt _conf) || is_true (encrypt _conf) then
    match
      (if hasTTL then
         y <- call (decrypter_of _conf) (prop APX item) (secret _conf) ;;
         Ret (set_prop APX y item)
       else call (decrypter_of _conf) item (secret _conf))
    with
    | Ret item' => item'
    | Throw => item
    end
  else item.

(** [get(key, localConfig)] *)
Definition get (key : text) (localConfig : LocalStorageConfig) (st : state)
  : result value * state :=
  let (ok, st1) := supportsLS st in
  if negb ok then (Ret VNull, st1)
  else
    let str := getItem key (storage st1) in
    if falsy_item str then (Ret VNull, st1)
    else
      let _conf := merge (config st1) localConfig in
      match JSON_parse (match str with Some t => t | None => [] end) with
      | Throw => (Throw, st1)
      | Ret item =>
          let hasTTL := isObject item && in_op APX item in
          let item := reverse _conf hasTTL item in
          if negb hasTTL then (Ret item, st1)
          else if js_gt (now st1) (prop (lit "ttl") item) then
            (Ret VNull, with_storage st1 (removeItem key (storage st1)))
          else (Ret (prop APX item), st1)
      end.

Definition remove (key : text) (st : state) : value * state :=
  let (ok, st1) := supportsLS st in
  if negb ok then (VBool false, st1)
  else (VUndefined, with_storage st1 (removeItem key (storage st1))).

Definition clear (st : state) : value * state :=
  let (ok, st1) := supportsLS st in
  if negb ok then (VBool false, st1)
  else (VUndefined, with_storage st1 []).

(** ** The text codec as the specification words it

    [codec v] is the value that comes back from a round trip of [v] through
    [JSON.stringify] and [JSON.parse]: a function-valued or undefined-valued
    property is dropped, such an array element becomes [null], and [null]
    itself is kept. *)

Definition has_json_form (v : value) : bool :=
  match v with
  | VUndefined | VFun _ => false
  | _ => true
  end.

Definition codec_elem (c : value -> value) (x : value) : value :=
  if has_json_form x then c x else VNull.

Definition codec_members (c : value -> value)
  : list (text * value) -> list (text * value) :=
  fix fields (fs : list (text * value)) : list (text * value) :=
    match fs with
    | [] => []
    | (k, x) :: r =>
        if has_json_form x then (k, c x) :: fields r else fields r
    end.

Fixpoint codec (v : value) : value :=
  match v with
  | VArr l => VArr (map (codec_elem codec) l)
  | VObj fs => VObj (codec_members codec fs)
  | _ => v
  end.

(** Values the model holds exactly: every string is made of UTF-16 code
    units, the properties of an object have distinct names, and every number
    is a safe integer. *)
Definition unit_ok (c : Z) : bool := (0 <=? c) && (c <? 65536).

Definition safe_integer (n : Z) : bool :=
  (-9007199254740991 <=? n) && (n <=? 9007199254740991).

Fixpoint distinct (ks : list text) : bool :=
  match ks with
  | [] => true
  | k :: r => negb (existsb (text_eqb k) r) && distinct r
  end.

Fixpoint wf_value (v : value) : bool :=
  match v with
  | VNum n => safe_integer n
  | VNumLit _ => false
  | VStr s => forallb unit_ok s
  | VArr l => forallb wf_value l
  | VObj fs =>
      distinct (map fst fs)
      && forallb (fun kv => forallb unit_ok (fst kv) && wf_value (snd kv)) fs
  | VFun src => forallb unit_ok src
  | _ => true
  end.

(** ** Vocabulary of the statements *)

(** The test [isObject(item) && APX in item] of [flush] and [get] on a
    stored text: it parses to an object that has the marker key.  The code
    takes every such text for an envelope, with or without a [ttl] field. *)
Definition is_envelope (t : text) : bool :=
  match JSON_parse t with
  | Ret item => isObject item && in_op APX item
  | Throw => false
  end.

(** A TTL envelope as the data model has it: an object with the payload
    under the marker key and a [ttl] field that holds a number. *)
Definition is_ttl_envelope (t : text) : bool :=
  match JSON_parse t with
  | Ret item =>
      isObject item && in_op APX item
      && match prop (lit "ttl") item with
         | VNum _ | VNumLit _ => true
         | _ => false
         end
  | Throw => false
  end.

(** The test of [flush] for removing the entry with stored text [t]. *)
Definition evicted (force : bool) (now0 : Z) (t : text) : bool :=
  match t with
  | [] => false
  | _ :: _ =>
      match JSON_parse t with
      | Ret item =>
          isObject item && in_op APX item
          && (js_gt now0 (prop (lit "ttl") item) || force)
      | Throw => false
      end
  end.

(** What one scheduler pass leaves under a key. *)
Definition after_flush (force : bool) (now0 : Z) (o : option text)
  : option text :=
  match o with
  | Some t => if evicted force now0 t then None else Some t
  | None => None
  end.

(** The TTL envelope [{ [APX]: payload, ttl: expiry, cb: src }]. *)
Definition envelope (payload : value) (expiry : Z) (cb0 : option text)
  : value :=
  VObj ([(APX, payload); (lit "ttl", VNum expiry)]
        ++ match cb0 with
           | Some src => [(lit "cb", VStr src)]
           | None => []
           end).

(** Record updates [{ ...c, encrypt: e }] and [{ ...c, ttl: t }]. *)
Definition with_encrypt (c : LocalStorageConfig) (e : option bool)
  : LocalStorageConfig :=
  mkConfig (ttl c) e (decrypt c) (encrypter c) (decrypter_of c) (secret c)
           (cb c).

Definition with_ttl (c : LocalStorageConfig) (t : ttl_field)
  : LocalStorageConfig :=
  mkConfig t (encrypt c) (decrypt c) (encrypter c) (decrypter_of c) (secret c)
           (cb c).

(** The override [{ ...l, encrypt: false, decrypt: false }]: a read that
    asks for no deobfuscation. *)
Definition without_reverse (l : LocalStorageConfig) : LocalStorageConfig :=
  mkConfig (ttl l) (Some false) (Some false) (encrypter l) (decrypter_of l)
           (secret l) (cb l).

(** What the first call of [supportsLS] (which runs [poll()]) leaves under
    a key; later calls leave the store alone. *)
Definition after_probe (st : state) (o : option text) : option text :=
  match hasLS st with
  | None => after_flush false (now st) o
  | Some _ => o
  end.

(** ** Sample states and configurations *)

(** An initialised, available store at time 1000 with the given content and
    the default configuration. *)
Definition ready (content : list (text * text)) : state :=
  mkState (Some true) true content [] default_config 1000.

(** A store that another package wrote a bare word into. *)
Definition foreign_store : state := ready [(lit "k", lit "abc")].

Definition ttl_config (n : Z) : LocalStorageConfig :=
  with_ttl empty_config (TtlNum n).

Definition encrypt_config : LocalStorageConfig :=
  with_encrypt empty_config (Some true).

(** An object that has a property under the marker key, and one that also
    has its own [ttl] property. *)
Definition marker_object : value := VObj [(APX, VNum 1)].

Definition marker_ttl_object : value :=
  VObj [(APX, VNum 1); (lit "ttl", VNum 5)].

(** The stored text of a value that has a JSON form. *)
Definition text_of (v : value) : text :=
  match JSON_stringify v with
  | Ret (Some t) => t
  | _ => []
  end.

(** A store that was not probed yet. *)
Definition fresh (content : list (text * text)) : state :=
  mkState None true content [] default_config 1000.

(** One envelope expiring at 99999, one expired at 500, one foreign bare
    word and one plain string; the clock of [ready] and [fresh] reads
    1000. *)
Definition sample_content : list (text * text) :=
  [(lit "live", text_of (envelope (VStr (lit "v")) 99999 None));
   (lit "old", text_of (envelope (VStr (lit "w")) 500 None));
   (lit "word", lit "abc");
   (lit "plain", text_of (VStr (lit "abc")))].

Definition sample_value : value :=
  VObj [(lit "a", VNull); (lit "b", VUndefined);
        (lit "c", VArr [VNum (-12); VFun (lit "f"); VStr (lit "xyz")])].

(** The string made of the one code point U+1F600, a surrogate pair. *)
Definition astral_string : value := VStr [55357; 56832].


(** ** Vocabulary of the proofs *)

(** What may follow a value inside a JSON text written by [serialize]. *)
Definition delim (rest : text) : Prop :=
  match rest with
  | [] => True
  | c :: _ => c = 44 \/ c = 93 \/ c = 125
  end.

(** Induction on values, with the hypothesis for every element of an array
    and every property of an object. *)

Section ValueInd.
Variable P : value -> Prop.
Hypothesis HUndefined : P VUndefined.
Hypothesis HNull : P VNull.
Hypothesis HBool : forall b, P (VBool b).
Hypothesis HNum : forall n, P (VNum n).
Hypothesis HNumLit : forall w, P (VNumLit w).
Hypothesis HStr : forall s, P (VStr s).
Hypothesis HArr : forall l, Forall P l -> P (VArr l).
Hypothesis HObj : forall fs, Forall (fun kv => P (snd kv)) fs -> P (VObj fs).
Hypothesis HFun : forall src, P (VFun src).
Hypothesis HCyclic : P VCyclic.

Fixpoint value_rect' (v : value) : P v :=
  match v with
  | VUndefined => HUndefined
  | VNull => HNull
  | VBool b => HBool b
  | VNum n => HNum n
  | VNumLit w => HNumLit w
  | VStr s => HStr s
  | VArr l =>
      HArr l ((fix all (l : list value) : Forall P l :=
                 match l with
                 | [] => Forall_nil P
                 | x :: r => Forall_cons x (value_rect' x) (all r)
                 end) l)
  | VObj fs =>
      HObj fs ((fix all (fs : list (text * value))
                  : Forall (fun kv => P (snd kv)) fs :=
                  match fs with
                  | [] => Forall_nil _
                  | kv :: r =>
                      Forall_cons kv (value_rect' (snd kv)) (all r)
                  end) fs)
  | VFun src => HFun src
  | VCyclic => HCyclic
  end.
End ValueInd.

(** The first character of a serialized value: not white space and not a
    closing bracket or a comma. *)
Definition starts_value (t : text) : Prop :=
  match t with
  | c :: _ => is_ws c = false /\ c <> 93 /\ c <> 125 /\ c <> 44
  | [] => False
  end.

(** [parses_at f v]: with fuel [f], [parse_value] reads back the text of
    [v] as [codec v], whatever delimiter follows. *)
Definition parses_at (f : nat) (v : value) : Prop :=
  forall t rest,
    serialize v = Ret (Some t) -> wf_value v = true ->
    (List.length t <= f)%nat -> delim rest ->
    parse_value f (t ++ rest) = Some (codec v, rest).

(** The properties that [JSON.stringify] writes. *)
Definition keep (fs : list (text * value)) : list (text * value) :=
  filter (fun kv => has_json_form (snd kv)) fs.

(** Two states that differ at most in the store and the timers. *)
Definition same_env (a b : state) : Prop :=
  hasLS a = hasLS b /\ available a = available b /\ config a = config b
  /\ now a = now b.

(** A parser of one value that reads at least one character. *)
Definition consumes (pv : text -> option (value * text)) : Prop :=
  forall s v r, pv s = Some (v, r) -> (List.length r < List.length s)%nat.

(** Two parsers of one value that agree on the texts no longer than [m]. *)
Definition agree (m : nat) (pv pv' : text -> option (value * text)) : Prop :=
  forall s, (List.length s <= m)%nat -> pv s = pv' s.

(** ** Changes of the environment between two calls *)


Definition with_available (st : state) (a : bool) : state :=
  mkState (hasLS st) a (storage st) (cbRefs st) (config st) (now st).

(** A store that cannot be touched, not probed yet. *)
Definition blocked (content : list (text * text)) : state :=
  mkState None false content [] default_config 1000.

(** The record update [{ ...c, cb: f }]. *)
Definition with_cb (c : LocalStorageConfig) (f : option text)
  : LocalStorageConfig :=
  mkConfig (ttl c) (encrypt c) (decrypt c) (encrypter c) (decrypter_of c)
           (secret c) f.

(** A timer of the registry that belongs to the store [st]: its key holds
    the text of an envelope that has not expired and carries a callback,
    and the timer carries that callback and the time left. *)
Definition timer_of_store (st : state) (tm : timer) : Prop :=
  exists t item,
    getItem (timer_key tm) (storage st) = Some t
    /\ JSON_parse t = Ret item
    /\ in_op APX item = true
    /\ js_gt (now st) (prop (lit "ttl") item) = false
    /\ truthy (prop (lit "cb") item) = true
    /\ timer_cb tm = prop (lit "cb") item
    /\ timer_delay tm
       = match ToNumber (prop (lit "ttl") item) with
         | Some e => Some (e - now st)
         | None => None
         end.

(** ** Vocabulary of the obfuscator's round trip *)




(** A value that the spread [[...x]] rejects or whose elements have no
    [charCodeAt]: neither a string nor an array. *)
Definition not_iterable (v : value) : bool :=
  match v with
  | VStr _ | VArr _ => false
  | _ => true
  end.

(** A store with one live envelope that carries a callback, one expired
    envelope with a callback and one plain number. *)
Definition timer_content : list (text * text) :=
  [(lit "live", text_of (envelope (VStr (lit "v")) 99999 (Some (lit "f"))));
   (lit "old", text_of (envelope (VStr (lit "w")) 500 (Some (lit "g"))));
   (lit "count", text_of (VNum 7))].


(** * Properties *)

(** ** Strings *)

Lemma text_eqb_eq (a b : text) : text_eqb a b = true <-> a = b.
Proof.
  revert b; induction a as [|x a IH]; intros [|y b]; simpl;
    try (split; [discriminate | congruence]); try tauto.
  rewrite andb_true_iff, Z.eqb_eq, IH.
  split; [intros [-> ->]; reflexivity | intros H; inversion H; auto].
Qed.

Lemma text_eqb_refl (a : text) : text_eqb a a = true.
Proof. apply text_eqb_eq; reflexivity. Qed.

Lemma text_eqb_neq (a b : text) : text_eqb a b = false <-> a <> b.
Proof.
  split.
  - intros H E. apply text_eqb_eq in E. congruence.
  - intros H. destruct (text_eqb a b) eqn:E; auto.
    apply text_eqb_eq in E. contradiction.
Qed.

Lemma unhex_hex_digit (d : Z) : 0 <= d < 16 -> unhex (hex_digit d) = Some d.
Proof.
  intros H. unfold unhex, hex_digit.
  destruct (d <? 10) eqn:E.
  - apply Z.ltb_lt in E.
    replace ((48 <=? 48 + d) && (48 + d <=? 57)) with true
      by (symmetry; apply andb_true_iff; split; apply Z.leb_le; lia).
    f_equal; lia.
  - apply Z.ltb_ge in E.
    replace ((48 <=? 87 + d) && (87 + d <=? 57)) with false
      by (symmetry; apply andb_false_iff; right; apply Z.leb_gt; lia).
    replace ((97 <=? 87 + d) && (87 + d <=? 102)) with true
      by (symmetry; apply andb_true_iff; split; apply Z.leb_le; lia).
    f_equal; lia.
Qed.

Lemma parse_hex4 (c : Z) (r : text) :
  0 <= c < 65536 ->
  match hex4 c ++ r with
  | h1 :: h2 :: h3 :: h4 :: r2 => unhex4 h1 h2 h3 h4 = Some c /\ r2 = r
  | _ => False
  end.
Proof.
  intros H. unfold hex4; simpl. split; [|reflexivity].
  unfold unhex4.
  assert (E2 : c / 256 = c / 16 / 16) by (rewrite Z.div_div by lia; reflexivity).
  assert (E3 : c / 4096 = c / 16 / 16 / 16)
    by (rewrite !Z.div_div by lia; reflexivity).
  rewrite E2, E3.
  pose proof (Z.mod_pos_bound c 16 ltac:(lia)).
  pose proof (Z.mod_pos_bound (c / 16) 16 ltac:(lia)).
  pose proof (Z.mod_pos_bound (c / 16 / 16) 16 ltac:(lia)).
  rewrite (unhex_hex_digit (c / 16 / 16 / 16))
    by (Z.div_mod_to_equations; lia).
  rewrite (unhex_hex_digit ((c / 16 / 16) mod 16)) by assumption.
  rewrite (unhex_hex_digit ((c / 16) mod 16)) by assumption.
  rewrite (unhex_hex_digit (c mod 16)) by assumption.
  f_equal.
  pose proof (Z.div_mod c 16 ltac:(lia)).
  pose proof (Z.div_mod (c / 16) 16 ltac:(lia)).
  pose proof (Z.div_mod (c / 16 / 16) 16 ltac:(lia)).
  lia.
Qed.

Lemma parse_chars_escape (e u : Z) (k s rest : text) :
  e <> 117 -> unescape e = Some u ->
  parse_chars (s ++ 34 :: rest) = Some (k, rest) ->
  parse_chars (92 :: e :: s ++ 34 :: rest) = Some (u :: k, rest).
Proof.
  intros He Hu Hs. cbn [parse_chars].
  replace (92 =? 34) with false by reflexivity.
  replace (92 =? 92) with true by reflexivity.
  apply Z.eqb_neq in He. rewrite He, Hu, Hs. reflexivity.
Qed.

Lemma parse_chars_unicode (c : Z) (k s rest : text) :
  0 <= c < 65536 ->
  parse_chars (s ++ 34 :: rest) = Some (k, rest) ->
  parse_chars (92 :: 117 :: hex4 c ++ s ++ 34 :: rest) = Some (c :: k, rest).
Proof.
  intros Hc Hs. cbn [parse_chars].
  replace (92 =? 34) with false by reflexivity.
  replace (92 =? 92) with true by reflexivity.
  replace (117 =? 117) with true by reflexivity.
  pose proof (parse_hex4 c (s ++ 34 :: rest) Hc) as H.
  destruct (hex4 c ++ s ++ 34 :: rest) as [|h1 [|h2 [|h3 [|h4 r2]]]];
    try contradiction.
  destruct H as [-> ->]. rewrite Hs. reflexivity.
Qed.

Lemma parse_chars_plain (c : Z) (k s rest : text) :
  c <> 34 -> c <> 92 -> 32 <= c ->
  parse_chars (s ++ 34 :: rest) = Some (k, rest) ->
  parse_chars (c :: s ++ 34 :: rest) = Some (c :: k, rest).
Proof.
  intros H1 H2 H3 Hs. cbn [parse_chars].
  apply Z.eqb_neq in H1, H2. rewrite H1, H2.
  replace (c <? 32) with false by (symmetry; apply Z.ltb_ge; lia).
  rewrite Hs. reflexivity.
Qed.

Lemma unit_ok_range (c : Z) : unit_ok c = true -> 0 <= c < 65536.
Proof.
  unfold unit_ok. rewrite andb_true_iff, Z.leb_le, Z.ltb_lt. tauto.
Qed.

Lemma parse_quote_chars_len (n : nat) :
  forall s rest, (List.length s <= n)%nat -> forallb unit_ok s = true ->
  parse_chars (quote_chars s ++ 34 :: rest) = Some (s, rest).
Proof.
  induction n as [|n IH]; intros s rest Hlen Hok.
  - destruct s; [reflexivity | simpl in Hlen; lia].
  - destruct s as [|c r]; [reflexivity|].
    simpl in Hlen. simpl in Hok. apply andb_true_iff in Hok.
    destruct Hok as [Hc Hr]. apply unit_ok_range in Hc.
    assert (IHr : parse_chars (quote_chars r ++ 34 :: rest) = Some (r, rest))
      by (apply IH; [lia | assumption]).
    cbn [quote_chars].
    destruct (c =? 8) eqn:E8;
      [apply Z.eqb_eq in E8; subst c;
       apply (parse_chars_escape 98 8); [lia | reflexivity | exact IHr]|].
    destruct (c =? 9) eqn:E9;
      [apply Z.eqb_eq in E9; subst c;
       apply (parse_chars_escape 116 9); [lia | reflexivity | exact IHr]|].
    destruct (c =? 10) eqn:E10;
      [apply Z.eqb_eq in E10; subst c;
       apply (parse_chars_escape 110 10); [lia | reflexivity | exact IHr]|].
    destruct (c =? 12) eqn:E12;
      [apply Z.eqb_eq in E12; subst c;
       apply (parse_chars_escape 102 12); [lia | reflexivity | exact IHr]|].
    destruct (c =? 13) eqn:E13;
      [apply Z.eqb_eq in E13; subst c;
       apply (parse_chars_escape 114 13); [lia | reflexivity | exact IHr]|].
    destruct (c =? 34) eqn:E34;
      [apply Z.eqb_eq in E34; subst c;
       apply (parse_chars_escape 34 34); [lia | reflexivity | exact IHr]|].
    destruct (c =? 92) eqn:E92;
      [apply Z.eqb_eq in E92; subst c;
       apply (parse_chars_escape 92 92); [lia | reflexivity | exact IHr]|].
    apply Z.eqb_neq in E34, E92.
    destruct (c <? 32) eqn:E32.
    { cbn [app]. rewrite <- app_assoc.
      apply parse_chars_unicode; assumption. }
    apply Z.ltb_ge in E32.
    destruct (is_high_surrogate c) eqn:Eh.
    { destruct r as [|d r'].
      - change ((92 :: 117 :: hex4 c) ++ 34 :: rest)
          with (92 :: 117 :: hex4 c ++ [] ++ 34 :: rest).
        apply parse_chars_unicode; [assumption | reflexivity].
      - destruct (is_low_surrogate d) eqn:El.
        + simpl in Hr. apply andb_true_iff in Hr. destruct Hr as [Hd Hr'].
          unfold is_low_surrogate in El. apply andb_true_iff in El.
          destruct El as [El1 El2]. apply Z.leb_le in El1, El2.
          cbn [app].
          apply (parse_chars_plain c (d :: r') (d :: quote_chars r')); try lia.
          apply (parse_chars_plain d r' (quote_chars r')); try lia.
          apply IH; [simpl in Hlen; lia | assumption].
        + cbn [app]. rewrite <- app_assoc.
          apply parse_chars_unicode; assumption. }
    destruct (is_low_surrogate c) eqn:El.
    { cbn [app]. rewrite <- app_assoc.
      apply parse_chars_unicode; assumption. }
    cbn [app]. apply parse_chars_plain; assumption.
Qed.

Lemma parse_QuoteJSONString (s rest : text) :
  forallb unit_ok s = true ->
  parse_chars (quote_chars s ++ 34 :: rest) = Some (s, rest).
Proof. intros H. apply (parse_quote_chars_len (List.length s)); auto. Qed.

(** ** Numbers *)

Lemma delim_not_digit (rest : text) :
  delim rest -> digits rest = (Decimal.Nil, rest).
Proof.
  destruct rest as [|c r]; [reflexivity|]. simpl.
  intros [-> | [-> | ->]]; reflexivity.
Qed.

Lemma delim_ends_number (rest : text) : delim rest -> ends_number rest = true.
Proof.
  destruct rest as [|c r]; [reflexivity|]. simpl.
  intros [-> | [-> | ->]]; reflexivity.
Qed.

Lemma digits_uint_text (d : Decimal.uint) (rest : text) :
  delim rest -> digits (uint_text d ++ rest) = (d, rest).
Proof.
  intros H. induction d; simpl; try rewrite IHd; try reflexivity.
  apply delim_not_digit; assumption.
Qed.

Lemma uint_text_head (d : Decimal.uint) :
  d <> Decimal.Nil ->
  exists c t, uint_text d = c :: t /\ 48 <= c <= 57.
Proof.
  destruct d; intros H; try contradiction; simpl; eexists; eexists;
    (split; [reflexivity | lia]).
Qed.

Lemma nzhead_not_D0 (d d' : Decimal.uint) :
  Decimal.nzhead d <> Decimal.D0 d'.
Proof. induction d; simpl; try discriminate; assumption. Qed.

Lemma unorm_no_leading_zero (d : Decimal.uint) :
  Decimal.unorm d = d -> no_leading_zero d = true.
Proof.
  destruct d; simpl; try reflexivity; try discriminate.
  unfold Decimal.unorm. simpl. intros H.
  destruct d; try reflexivity; exfalso;
    (destruct (Decimal.nzhead _) eqn:E in H;
     [discriminate | apply nzhead_not_D0 in E; assumption
     | discriminate ..]).
Qed.

Lemma to_uint_normal (p : positive) :
  Decimal.unorm (Pos.to_uint p) = Pos.to_uint p.
Proof.
  rewrite <- (DecimalPos.Unsigned.to_of (Pos.to_uint p)).
  rewrite DecimalPos.Unsigned.of_to. reflexivity.
Qed.

Lemma to_int_shape (n : Z) :
  exists d, (Z.to_int n = Decimal.Pos d \/ Z.to_int n = Decimal.Neg d)
            /\ no_leading_zero d = true.
Proof.
  destruct n as [|p|p]; simpl.
  - exists Decimal.zero. split; [left|]; reflexivity.
  - exists (Pos.to_uint p).
    split; [left; reflexivity | apply unorm_no_leading_zero, to_uint_normal].
  - exists (Pos.to_uint p).
    split; [right; reflexivity | apply unorm_no_leading_zero, to_uint_normal].
Qed.

Ltac eqb_false :=
  repeat match goal with
         | |- context [?a =? ?b] =>
             replace (a =? b) with false
               by (symmetry; apply Z.eqb_neq; lia)
         end.

Lemma parse_number_digits (c : Z) (t rest : text) (d : Decimal.uint) :
  48 <= c <= 57 -> digits (c :: t ++ rest) = (d, rest) ->
  no_leading_zero d = true -> delim rest ->
  forall f, parse_value (S f) (c :: t ++ rest)
            = Some (VNum (Z.of_int (Decimal.Pos d)), rest).
Proof.
  intros Hc Hd Hz Hr f.
  cbn [parse_value skip_ws]. unfold is_ws. eqb_false. cbn [orb].
  eqb_false. unfold parse_number. eqb_false.
  rewrite Hd, Hz, (delim_ends_number _ Hr). reflexivity.
Qed.

Lemma parse_value_number (n : Z) (rest : text) (f : nat) :
  delim rest ->
  parse_value (S f) (number_text n ++ rest) = Some (VNum n, rest).
Proof.
  intros Hr. unfold number_text.
  destruct (to_int_shape n) as [d [[E | E] Hz]]; rewrite E.
  - assert (Hn : d <> Decimal.Nil) by (intros ->; discriminate).
    destruct (uint_text_head d Hn) as [c [t [Et Hc]]].
    pose proof (digits_uint_text d rest Hr) as Hd.
    rewrite Et in *. cbn [app] in *.
    rewrite (parse_number_digits c t rest d Hc Hd Hz Hr).
    rewrite <- E, DecimalZ.of_to. reflexivity.
  - replace (VNum n) with (VNum (Z.of_int (Decimal.Neg d)))
      by (rewrite <- E, DecimalZ.of_to; reflexivity).
    cbn [app parse_value skip_ws]. unfold is_ws. eqb_false. cbn [orb].
    eqb_false. unfold parse_number. rewrite Z.eqb_refl.
    rewrite (digits_uint_text d rest Hr), Hz, (delim_ends_number _ Hr).
    reflexivity.
Qed.

(** ** Shape of a serialized value *)

Lemma number_text_starts (n : Z) : starts_value (number_text n).
Proof.
  unfold number_text.
  destruct (to_int_shape n) as [d [[E | E] Hz]]; rewrite E.
  - assert (Hn : d <> Decimal.Nil) by (intros ->; discriminate).
    destruct (uint_text_head d Hn) as [c [t [-> Hc]]].
    simpl. unfold is_ws. eqb_false. repeat split; lia.
  - simpl. repeat split; lia.
Qed.

Lemma serialize_starts (v : value) (t : text) :
  wf_value v = true -> serialize v = Ret (Some t) -> starts_value t.
Proof.
  destruct v; simpl; try discriminate; intros _.
  - intros H; inversion H; simpl; repeat split; lia.
  - destruct b; intros H; inversion H; simpl; repeat split; lia.
  - intros H; inversion H. apply number_text_starts.
  - intros H; inversion H. simpl; repeat split; lia.
  - destruct (serialize_elems serialize l); simpl; try discriminate.
    intros H; inversion H. simpl; repeat split; lia.
  - destruct (serialize_members serialize fields); simpl; try discriminate.
    intros H; inversion H. simpl; repeat split; lia.
Qed.

Lemma starts_value_skip_ws (t rest : text) :
  starts_value t -> skip_ws (t ++ rest) = t ++ rest.
Proof.
  destruct t as [|c t]; simpl; [contradiction|].
  intros [-> _]. reflexivity.
Qed.

Lemma serialize_no_form (v : value) :
  has_json_form v = false -> serialize v = Ret None.
Proof. destruct v; simpl; try discriminate; reflexivity. Qed.

Lemma serialize_form (v : value) (o : option text) :
  has_json_form v = true -> serialize v = Ret o -> exists t, o = Some t.
Proof.
  destruct v; simpl; try discriminate; intros _ H;
    try (inversion H; eexists; reflexivity).
  - destruct b; inversion H; eexists; reflexivity.
  - destruct (serialize_elems serialize l); simpl in H; try discriminate.
    inversion H; eexists; reflexivity.
  - destruct (serialize_members serialize fields); simpl in H;
      try discriminate.
    inversion H; eexists; reflexivity.
Qed.

(** ** Round trip of arrays *)

Lemma join_comma_cons (p : text) (ps : list text) :
  join_comma (p :: ps)
  = match ps with [] => p | _ :: _ => p ++ 44 :: join_comma ps end.
Proof. destruct ps; reflexivity. Qed.

Lemma join_comma_head_length (p : text) (ps : list text) :
  (List.length p <= List.length (join_comma (p :: ps)))%nat.
Proof.
  rewrite join_comma_cons. destruct ps; [lia|].
  rewrite length_app. lia.
Qed.

Lemma join_comma_tail_length (p : text) (ps : list text) :
  (List.length (join_comma ps) <= List.length (join_comma (p :: ps)))%nat.
Proof.
  rewrite join_comma_cons. destruct ps; [simpl; lia|].
  rewrite length_app. cbn [List.length]. lia.
Qed.

Lemma parse_value_null (f : nat) (rest : text) :
  parse_value (S f) (lit "null" ++ rest) = Some (VNull, rest).
Proof. reflexivity. Qed.

Lemma parse_elem (f : nat) (x : value) (o : option text) (rest : text) :
  parses_at f x -> wf_value x = true -> serialize x = Ret o ->
  (List.length (or_null o) < f)%nat -> delim rest ->
  parse_value f (or_null o ++ rest) = Some (codec_elem codec x, rest).
Proof.
  intros Hp Hwf Hs Hlen Hd. unfold codec_elem.
  destruct (has_json_form x) eqn:Ef.
  - destruct (serialize_form x o Ef Hs) as [t ->].
    apply Hp; auto. lia.
  - rewrite (serialize_no_form x Ef) in Hs. inversion Hs; subst o.
    destruct f as [|f]; [lia|]. apply parse_value_null.
Qed.

Lemma parse_elems_serialized (f : nat) (rest : text) :
  forall (l : list value) (parts : list text) (n : nat),
    Forall (parses_at f) l -> forallb wf_value l = true ->
    serialize_elems serialize l = Ret parts -> l <> [] ->
    (List.length (join_comma parts) < f)%nat -> (List.length l <= n)%nat ->
    parse_elems (parse_value f) n (join_comma parts ++ 93 :: rest)
    = Some (map (codec_elem codec) l, rest).
Proof.
  induction l as [|x r IH]; intros parts n Hall Hwf Hs Hne Hlen Hn;
    [contradiction|].
  inversion Hall as [|? ? Hx Hr]; subst.
  simpl in Hwf. apply andb_true_iff in Hwf. destruct Hwf as [Hwx Hwr].
  simpl in Hs.
  destruct (serialize x) as [o|] eqn:Ex; simpl in Hs; try discriminate.
  destruct (serialize_elems serialize r) as [ps|] eqn:Er; simpl in Hs;
    try discriminate.
  inversion Hs; subst parts. clear Hs.
  set (px := or_null o) in *.
  pose proof (join_comma_head_length px ps) as Lh.
  pose proof (join_comma_tail_length px ps) as Lt.
  destruct n as [|n]; [simpl in Hn; lia|]. simpl in Hn.
  cbn [parse_elems map].
  destruct r as [|y r'].
  - simpl in Er. inversion Er; subst ps. cbn [join_comma].
    unfold px. rewrite (parse_elem f x o (93 :: rest) Hx Hwx Ex);
      [reflexivity | fold px; lia | simpl; auto].
  - assert (exists py ps', ps = py :: ps') as [py [ps' ->]].
    { simpl in Er. destruct (serialize y); simpl in Er; try discriminate.
      destruct (serialize_elems serialize r'); simpl in Er;
        try discriminate.
      inversion Er. eexists; eexists; reflexivity. }
    rewrite join_comma_cons in *. rewrite <- app_assoc. cbn [app].
    unfold px. rewrite (parse_elem f x o _ Hx Hwx Ex);
      [ | fold px; rewrite length_app in Hlen; lia | simpl; auto].
    cbn [skip_ws]. change (is_ws 44) with false. cbv iota.
    rewrite Z.eqb_refl.
    rewrite (IH (py :: ps') n Hr Hwr eq_refl); [reflexivity | discriminate | | ].
    + rewrite length_app in Hlen. cbn [List.length] in Hlen. lia.
    + simpl in *. lia.
Qed.

(** ** Round trip of objects *)

Lemma bind_ret {A : Type} (m : result A) : (x <- m ;; Ret x) = m.
Proof. destruct m; reflexivity. Qed.

Lemma serialize_members_keep (fs : list (text * value)) :
  serialize_members serialize fs = serialize_members serialize (keep fs).
Proof.
  induction fs as [|[k x] r IH]; [reflexivity|].
  cbn [serialize_members keep filter snd]. fold (keep r).
  destruct (has_json_form x) eqn:Ef.
  - cbn [serialize_members]. rewrite IH. reflexivity.
  - rewrite (serialize_no_form x Ef). cbn [bind].
    rewrite bind_ret. exact IH.
Qed.

Lemma codec_members_keep (fs : list (text * value)) :
  codec_members codec fs = map (fun kv => (fst kv, codec (snd kv))) (keep fs).
Proof.
  induction fs as [|[k x] r IH]; [reflexivity|].
  cbn [codec_members keep filter snd]. fold (keep r).
  destruct (has_json_form x); cbn [map fst snd]; rewrite IH; reflexivity.
Qed.

Lemma assign_fresh (k : text) (v : value) (acc : list (text * value)) :
  lookup k acc = None -> assign k v acc = acc ++ [(k, v)].
Proof.
  induction acc as [|[k' v'] r IH]; simpl; [reflexivity|].
  destruct (text_eqb k k'); [discriminate|].
  intros H. rewrite IH by assumption. reflexivity.
Qed.

Lemma lookup_app_fresh (k k' : text) (v : value) (acc : list (text * value)) :
  lookup k acc = None -> k <> k' -> lookup k (acc ++ [(k', v)]) = None.
Proof.
  intros Ha Hk. induction acc as [|[k0 v0] r IH]; simpl in *.
  - apply text_eqb_neq in Hk. rewrite Hk. reflexivity.
  - destruct (text_eqb k k0); [discriminate | auto].
Qed.

Lemma existsb_text_eqb (k : text) (ks : list text) :
  existsb (text_eqb k) ks = false -> forall k', In k' ks -> k' <> k.
Proof.
  intros H k' Hin ->.
  assert (existsb (text_eqb k) ks = true)
    by (apply existsb_exists; exists k; split; [assumption | apply text_eqb_refl]).
  congruence.
Qed.

Lemma parse_member_step (f n : nat) (acc : list (text * value))
  (k tx R : text) (cx : value) :
  forallb unit_ok k = true ->
  parse_value f (tx ++ R) = Some (cx, R) ->
  parse_members (parse_value f) (S n) acc ((QuoteJSONString k ++ 58 :: tx) ++ R)
  = match skip_ws R with
    | [] => None
    | d :: s4 =>
        if d =? 44 then parse_members (parse_value f) n (assign k cx acc) s4
        else if d =? 125 then Some (assign k cx acc, s4)
        else None
    end.
Proof.
  intros Hk Hx. unfold QuoteJSONString.
  cbn [app]. rewrite <- !app_assoc. cbn [app].
  cbn [parse_members skip_ws]. change (is_ws 34) with false. cbv iota.
  rewrite Z.eqb_refl.
  rewrite (parse_QuoteJSONString k _ Hk).
  cbn [skip_ws]. change (is_ws 58) with false. cbv iota.
  rewrite Z.eqb_refl, Hx. reflexivity.
Qed.

Lemma parse_members_serialized (f : nat) (rest : text) :
  forall (fs : list (text * value)) (parts : list text) (n : nat)
         (acc : list (text * value)),
    Forall (fun kv => parses_at f (snd kv)) fs ->
    forallb (fun kv => has_json_form (snd kv)) fs = true ->
    forallb (fun kv => forallb unit_ok (fst kv) && wf_value (snd kv)) fs
    = true ->
    distinct (map fst fs) = true ->
    (forall kv, In kv fs -> lookup (fst kv) acc = None) ->
    serialize_members serialize fs = Ret parts -> fs <> [] ->
    (List.length (join_comma parts) < f)%nat -> (List.length fs <= n)%nat ->
    parse_members (parse_value f) n acc (join_comma parts ++ 125 :: rest)
    = Some (acc ++ map (fun kv => (fst kv, codec (snd kv))) fs, rest).
Proof.
  induction fs as [|[k x] r IH];
    intros parts n acc Hall Hform Hwf Hdis Hacc Hs Hne Hlen Hn;
    [contradiction|].
  inversion Hall as [|? ? Hx Hr]; subst. cbn [snd] in Hx.
  cbn [forallb snd fst] in Hform, Hwf.
  apply andb_true_iff in Hform. destruct Hform as [Hfx Hfr].
  apply andb_true_iff in Hwf. destruct Hwf as [Hwx Hwr].
  apply andb_true_iff in Hwx. destruct Hwx as [Hk Hwx].
  cbn [map fst distinct] in Hdis.
  apply andb_true_iff in Hdis. destruct Hdis as [Hkr Hdr].
  apply negb_true_iff in Hkr.
  cbn [serialize_members] in Hs.
  destruct (serialize x) as [o|] eqn:Ex; cbn [bind] in Hs; try discriminate.
  destruct (serialize_form x o Hfx Ex) as [tx ->].
  destruct (serialize_members serialize r) as [ps|] eqn:Er; cbn [bind] in Hs;
    try discriminate.
  assert (Hp : parts = (QuoteJSONString k ++ 58 :: tx) :: ps) by congruence.
  subst parts. clear Hs.
  remember (QuoteJSONString k ++ 58 :: tx) as px eqn:Epx.
  pose proof (join_comma_head_length px ps) as Lh.
  pose proof (join_comma_tail_length px ps) as Lt.
  assert (Lx : (List.length tx <= List.length px)%nat)
    by (rewrite Epx, length_app; cbn [List.length]; lia).
  destruct n as [|n]; [simpl in Hn; lia|]. simpl in Hn.
  assert (Hk0 : lookup k acc = None) by (apply (Hacc (k, x)); left; reflexivity).
  assert (Hacc' : forall kv, In kv r ->
                             lookup (fst kv) (assign k (codec x) acc) = None).
  { intros kv Hin. rewrite assign_fresh by assumption.
    apply lookup_app_fresh; [apply Hacc; right; assumption|].
    apply (existsb_text_eqb k (map fst r) Hkr). apply in_map. assumption. }
  cbn [map fst snd].
  destruct r as [|y r'].
  - simpl in Er. inversion Er; subst ps. cbn [join_comma].
    rewrite Epx, (parse_member_step f n acc k tx (125 :: rest) (codec x) Hk).
    + cbn [skip_ws]. change (is_ws 125) with false. cbv iota.
      change (125 =? 44) with false. cbv iota. rewrite Z.eqb_refl.
      rewrite assign_fresh by assumption. reflexivity.
    + apply Hx; auto; [lia | simpl; auto].
  - assert (exists py ps', ps = py :: ps') as [py [ps' ->]].
    { destruct y as [ky y]. cbn [forallb snd] in Hfr.
      apply andb_true_iff in Hfr. destruct Hfr as [Hfy _].
      cbn [serialize_members] in Er.
      destruct (serialize y) as [oy|] eqn:Ey; cbn [bind] in Er;
        try discriminate.
      destruct (serialize_form y oy Hfy Ey) as [ty ->].
      destruct (serialize_members serialize r'); cbn [bind] in Er;
        try discriminate.
      inversion Er. eexists; eexists; reflexivity. }
    rewrite join_comma_cons in *. rewrite <- app_assoc. cbn [app].
    rewrite length_app in Hlen. cbn [List.length] in Hlen.
    rewrite Epx, (parse_member_step f n acc k tx _ (codec x) Hk).
    + cbn [skip_ws]. change (is_ws 44) with false. cbv iota.
      rewrite Z.eqb_refl.
      rewrite (IH (py :: ps') n (assign k (codec x) acc) Hr Hfr Hwr Hdr Hacc'
                 eq_refl); [ | discriminate | lia | simpl in *; lia].
      rewrite assign_fresh by assumption. rewrite <- app_assoc. reflexivity.
    + apply Hx; auto; [lia | simpl; auto].
Qed.

(** ** Round trip of every value *)

Lemma forallb_filter_id {A : Type} (p : A -> bool) (l : list A) :
  forallb p (filter p l) = true.
Proof.
  induction l as [|a l IH]; simpl; [reflexivity|].
  destruct (p a) eqn:E; simpl; [rewrite E|]; assumption.
Qed.

Lemma forallb_filter {A : Type} (p q : A -> bool) (l : list A) :
  forallb p l = true -> forallb p (filter q l) = true.
Proof.
  induction l as [|a l IH]; simpl; [reflexivity|].
  rewrite andb_true_iff. intros [Ha Hl].
  destruct (q a); simpl; [rewrite Ha|]; auto.
Qed.

Lemma distinct_keep (fs : list (text * value)) :
  distinct (map fst fs) = true -> distinct (map fst (keep fs)) = true.
Proof.
  induction fs as [|[k x] r IH]; simpl; [reflexivity|].
  rewrite andb_true_iff, negb_true_iff. intros [Hk Hr].
  destruct (has_json_form x); simpl; [|auto].
  rewrite IH by assumption. rewrite andb_true_r. apply negb_true_iff.
  destruct (existsb (text_eqb k) (map fst (keep r))) eqn:E; [|reflexivity].
  apply existsb_exists in E. destruct E as [k' [Hin Hk']].
  assert (existsb (text_eqb k) (map fst r) = true); [|congruence].
  apply existsb_exists. exists k'. split; [|assumption].
  apply in_map_iff in Hin. destruct Hin as [kv [<- Hin]].
  apply in_map. apply filter_In in Hin. tauto.
Qed.

Lemma Forall_keep (P : text * value -> Prop) (fs : list (text * value)) :
  Forall P fs -> Forall P (keep fs).
Proof.
  intros H. apply Forall_forall. intros kv Hin.
  apply filter_In in Hin. destruct Hin as [Hin _].
  revert kv Hin. apply Forall_forall. assumption.
Qed.

Lemma serialize_members_nil (fs : list (text * value)) (parts : list text) :
  forallb (fun kv => has_json_form (snd kv)) fs = true ->
  serialize_members serialize fs = Ret parts ->
  List.length parts = List.length fs.
Proof.
  revert parts. induction fs as [|[k x] r IH]; intros parts Hf Hs.
  - simpl in Hs. inversion Hs. reflexivity.
  - cbn [forallb snd] in Hf. apply andb_true_iff in Hf. destruct Hf as [Hx Hr].
    cbn [serialize_members] in Hs.
    destruct (serialize x) as [o|] eqn:Ex; cbn [bind] in Hs; try discriminate.
    destruct (serialize_form x o Hx Ex) as [tx ->].
    destruct (serialize_members serialize r) as [ps|] eqn:Er; cbn [bind] in Hs;
      try discriminate.
    inversion Hs. simpl. f_equal. apply IH; auto.
Qed.

Lemma serialize_elems_length (l : list value) (parts : list text) :
  serialize_elems serialize l = Ret parts ->
  List.length parts = List.length l.
Proof.
  revert parts. induction l as [|x r IH]; intros parts Hs.
  - simpl in Hs. inversion Hs. reflexivity.
  - cbn [serialize_elems] in Hs.
    destruct (serialize x) as [o|]; cbn [bind] in Hs; try discriminate.
    destruct (serialize_elems serialize r) as [ps|]; cbn [bind] in Hs;
      try discriminate.
    inversion Hs. simpl. f_equal. apply IH; reflexivity.
Qed.

Lemma join_comma_length (parts : list text) :
  Forall (fun p => p <> []) parts ->
  (List.length parts <= List.length (join_comma parts))%nat.
Proof.
  induction 1 as [|p ps Hp Hps IH]; [simpl; lia|].
  rewrite join_comma_cons. destruct ps as [|q ps].
  - destruct p; [contradiction | simpl; lia].
  - rewrite length_app. cbn [List.length] in *. lia.
Qed.

Lemma or_null_starts (x : value) (o : option text) :
  wf_value x = true -> serialize x = Ret o -> starts_value (or_null o).
Proof.
  destruct o as [t|]; simpl; intros Hwf H.
  - apply (serialize_starts x t Hwf H).
  - repeat split; lia.
Qed.

Lemma starts_value_nonempty (t : text) : starts_value t -> t <> [].
Proof. destruct t; simpl; [contradiction | discriminate]. Qed.

Lemma serialize_elems_starts (l : list value) (parts : list text) :
  forallb wf_value l = true ->
  serialize_elems serialize l = Ret parts -> Forall starts_value parts.
Proof.
  revert parts. induction l as [|x r IH]; intros parts Hwf Hs.
  - simpl in Hs. inversion Hs. constructor.
  - cbn [forallb] in Hwf. apply andb_true_iff in Hwf.
    destruct Hwf as [Hwx Hwr].
    cbn [serialize_elems] in Hs.
    destruct (serialize x) as [o|] eqn:Ex; cbn [bind] in Hs; try discriminate.
    destruct (serialize_elems serialize r) as [ps|]; cbn [bind] in Hs;
      try discriminate.
    assert (parts = or_null o :: ps) by congruence. subst parts.
    constructor; [apply (or_null_starts x o Hwx Ex) | apply IH; auto].
Qed.

Lemma serialize_members_starts (fs : list (text * value)) (parts : list text) :
  serialize_members serialize fs = Ret parts -> Forall starts_value parts.
Proof.
  revert parts. induction fs as [|[k x] r IH]; intros parts Hs.
  - simpl in Hs. inversion Hs. constructor.
  - cbn [serialize_members] in Hs.
    destruct (serialize x) as [o|] eqn:Ex; cbn [bind] in Hs; try discriminate.
    destruct (serialize_members serialize r) as [ps|]; cbn [bind] in Hs;
      try discriminate.
    destruct o as [t|].
    + assert (parts = (QuoteJSONString k ++ 58 :: t) :: ps) by congruence.
      subst parts. constructor; [|apply IH; reflexivity].
      simpl. repeat split; lia.
    + assert (parts = ps) by congruence. subst parts. apply IH; reflexivity.
Qed.

Lemma join_comma_starts (p : text) (ps : list text) (R : text) :
  starts_value p -> starts_value (join_comma (p :: ps) ++ R).
Proof.
  rewrite join_comma_cons. destruct p as [|c p]; [contradiction|].
  destruct ps; simpl; auto.
Qed.

Lemma starts_value_dispatch {A : Type} (t : text) (close : Z)
  (a : text -> A) (b none : A) :
  starts_value t -> close = 93 \/ close = 125 ->
  match skip_ws t with
  | [] => none
  | c1 :: r1 => if c1 =? close then a r1 else b
  end = b.
Proof.
  destruct t as [|c t]; simpl; [contradiction|].
  intros [-> [H1 [H2 _]]] Hc.
  replace (c =? close) with false; [reflexivity|].
  symmetry. apply Z.eqb_neq. destruct Hc; subst; assumption.
Qed.

Lemma Forall_starts_nonempty (parts : list text) :
  Forall starts_value parts -> Forall (fun p => p <> []) parts.
Proof.
  intros H. eapply Forall_impl; [|exact H].
  intros p. apply starts_value_nonempty.
Qed.

Theorem parse_serialize (v : value) : forall f, parses_at f v.
Proof.
  induction v using value_rect'; intros fuel t rest Hs Hwf Hlen Hd;
    simpl in Hs; try discriminate; try (cbn in Hwf; discriminate Hwf).
  - inversion Hs; subst t.
    destruct fuel as [|f]; [simpl in Hlen; lia | reflexivity].
  - destruct b; inversion Hs; subst t;
      (destruct fuel as [|f]; [simpl in Hlen; lia | reflexivity]).
  - inversion Hs; subst t.
    destruct fuel as [|f].
    + pose proof (number_text_starts n) as Hn.
      destruct (number_text n); [contradiction | simpl in Hlen; lia].
    + apply parse_value_number; assumption.
  - assert (t = QuoteJSONString s) by congruence. subst t.
    destruct fuel as [|f]; [simpl in Hlen; lia|].
    unfold QuoteJSONString. cbn [app]. rewrite <- app_assoc. cbn [app].
    cbn [parse_value skip_ws]. change (is_ws 34) with false. cbv iota.
    change (34 =? 110) with false. change (34 =? 116) with false.
    change (34 =? 102) with false. change (34 =? 34) with true. cbv iota.
    rewrite parse_QuoteJSONString by exact Hwf. reflexivity.
  - destruct (serialize_elems serialize l) as [parts|] eqn:Ep;
      cbn [bind] in Hs; try discriminate.
    assert (t = 91 :: join_comma parts ++ [93]) by congruence. subst t.
    destruct fuel as [|f]; [simpl in Hlen; lia|].
    cbn [List.length] in Hlen. rewrite length_app in Hlen.
    cbn [List.length] in Hlen.
    cbn [app]. rewrite <- app_assoc. cbn [app].
    cbn [parse_value skip_ws]. change (is_ws 91) with false. cbv iota.
    change (91 =? 110) with false. change (91 =? 116) with false.
    change (91 =? 102) with false. change (91 =? 34) with false.
    change (91 =? 91) with true. cbv iota.
    pose proof (serialize_elems_starts l parts Hwf Ep) as Hst.
    pose proof (serialize_elems_length l parts Ep) as Hpl.
    pose proof (join_comma_length parts (Forall_starts_nonempty _ Hst)) as Hjl.
    destruct l as [|x r].
    + simpl in Ep. assert (parts = []) by congruence. subst parts.
      reflexivity.
    + destruct parts as [|p ps]; [discriminate|].
      inversion Hst as [|? ? Hp _]; subst.
      rewrite starts_value_dispatch;
        [ | apply join_comma_starts; assumption | left; reflexivity].
      rewrite (parse_elems_serialized f rest (x :: r) (p :: ps) f);
        [reflexivity | | exact Hwf | exact Ep | discriminate | lia | lia].
      eapply Forall_impl; [|exact H]. intros a Ha. apply Ha.
  - destruct (serialize_members serialize fs) as [parts|] eqn:Ep;
      cbn [bind] in Hs; try discriminate.
    assert (t = 123 :: join_comma parts ++ [125]) by congruence. subst t.
    destruct fuel as [|f]; [simpl in Hlen; lia|].
    cbn [List.length] in Hlen. rewrite length_app in Hlen.
    cbn [List.length] in Hlen.
    cbn [app]. rewrite <- app_assoc. cbn [app].
    cbn [parse_value skip_ws]. change (is_ws 123) with false. cbv iota.
    change (123 =? 110) with false. change (123 =? 116) with false.
    change (123 =? 102) with false. change (123 =? 34) with false.
    change (123 =? 91) with false. change (123 =? 123) with true. cbv iota.
    cbn [codec]. rewrite codec_members_keep.
    rewrite serialize_members_keep in Ep.
    cbn [wf_value] in Hwf. apply andb_true_iff in Hwf.
    destruct Hwf as [Hdis Hwf].
    pose proof (serialize_members_starts _ parts Ep) as Hst.
    pose proof (serialize_members_nil (keep fs) parts
                  (forallb_filter_id _ fs) Ep) as Hpl.
    pose proof (join_comma_length parts (Forall_starts_nonempty _ Hst)) as Hjl.
    destruct (keep fs) as [|kx r] eqn:Ek.
    + simpl in Ep. assert (parts = []) by congruence. subst parts.
      reflexivity.
    + destruct parts as [|p ps]; [discriminate|].
      inversion Hst as [|? ? Hp _]; subst.
      rewrite starts_value_dispatch;
        [ | apply join_comma_starts; assumption | right; reflexivity].
      rewrite (parse_members_serialized f rest (kx :: r) (p :: ps) f []);
        [reflexivity | | | | | | exact Ep | discriminate | lia | lia].
      * rewrite <- Ek. apply Forall_keep.
        eapply Forall_impl; [|exact H]. intros a Ha. apply Ha.
      * rewrite <- Ek. apply forallb_filter_id.
      * rewrite <- Ek. apply forallb_filter. exact Hwf.
      * rewrite <- Ek. apply distinct_keep. exact Hdis.
      * reflexivity.
Qed.

Theorem JSON_round_trip (v : value) (t : text) :
  wf_value v = true -> JSON_stringify v = Ret (Some t) ->
  JSON_parse t = Ret (codec v).
Proof.
  intros Hwf Hs. unfold JSON_parse.
  pose proof (parse_serialize v (S (List.length t)) t [] Hs Hwf) as H.
  rewrite List.app_nil_r in H. rewrite H; [reflexivity | lia | exact I].
Qed.

(** ** The fuel of [parse_value] is never short *)

Lemma skip_ws_length (s : text) :
  (List.length (skip_ws s) <= List.length s)%nat.
Proof.
  induction s as [|c r IH]; simpl; [lia|].
  destruct (is_ws c); simpl; lia.
Qed.

Lemma expect_length (w s r : text) :
  expect w s = Some r -> (List.length r <= List.length s)%nat.
Proof.
  revert s. induction w as [|a w IH]; intros s H; simpl in H.
  - inversion H. lia.
  - destruct s as [|c s']; [discriminate|].
    destruct (c =? a); [|discriminate].
    apply IH in H. simpl. lia.
Qed.

Lemma parse_chars_length (n : nat) :
  forall s k r, (List.length s <= n)%nat -> parse_chars s = Some (k, r) ->
                (List.length r < List.length s)%nat.
Proof.
  induction n as [|n IH]; intros s k r Hn H.
  - destruct s; [discriminate | simpl in Hn; lia].
  - destruct s as [|c s']; [discriminate|].
    cbn [parse_chars] in H. simpl in Hn.
    destruct (c =? 34); [inversion H; subst; simpl; lia|].
    destruct (c =? 92).
    + destruct s' as [|e r1]; [discriminate|].
      destruct (e =? 117).
      * destruct r1 as [|h1 [|h2 [|h3 [|h4 r2]]]]; try discriminate.
        destruct (unhex4 h1 h2 h3 h4); [|discriminate].
        destruct (parse_chars r2) as [[k' r3]|] eqn:E; [|discriminate].
        inversion H; subst. apply IH in E; simpl in *; lia.
      * destruct (unescape e); [|discriminate].
        destruct (parse_chars r1) as [[k' r3]|] eqn:E; [|discriminate].
        inversion H; subst. apply IH in E; simpl in *; lia.
    + destruct (c <? 32); [discriminate|].
      destruct (parse_chars s') as [[k' r3]|] eqn:E; [|discriminate].
      inversion H; subst. apply IH in E; simpl in *; lia.
Qed.

Lemma digits_length (s : text) (d : Decimal.uint) (r : text) :
  digits s = (d, r) ->
  (List.length r <= List.length s)%nat
  /\ (d <> Decimal.Nil -> (List.length r < List.length s)%nat).
Proof.
  revert d r. induction s as [|c s' IH]; intros d r H; simpl in H.
  - inversion H. split; [simpl; lia | congruence].
  - destruct (is_digit c).
    + destruct (digits s') as [d' r'] eqn:E. inversion H; subst.
      destruct (IH d' r eq_refl) as [H1 _]. simpl. split; lia.
    + inversion H; subst. split; [lia | congruence].
Qed.

Lemma digit_run_length (s ds r : text) :
  digit_run s = (ds, r) -> (List.length r <= List.length s)%nat.
Proof.
  revert ds r. induction s as [|c s' IH]; intros ds r H; simpl in H.
  - inversion H. simpl; lia.
  - destruct (is_digit c).
    + destruct (digit_run s') as [ds' r'] eqn:E. inversion H; subst.
      specialize (IH ds' r eq_refl). simpl. lia.
    + inversion H; subst. lia.
Qed.

Lemma number_tail_length (s tl r : text) :
  number_tail s = Some (tl, r) -> (List.length r <= List.length s)%nat.
Proof.
  unfold number_tail. intros H.
  assert (Hf : forall frac s1,
             match s with
             | c :: r0 =>
                 if c =? 46 then
                   match digit_run r0 with
                   | ([], _) => None
                   | (ds, r') => Some (46 :: ds, r')
                   end
                 else Some ([], s)
             | [] => Some ([], [])
             end = Some (frac, s1) ->
             (List.length s1 <= List.length s)%nat).
  { intros frac s1 E. destruct s as [|c r0]; [inversion E; simpl; lia|].
    destruct (c =? 46).
    - destruct (digit_run r0) as [ds r'] eqn:Ed.
      apply digit_run_length in Ed.
      destruct ds; inversion E; subst; simpl; lia.
    - inversion E; subst. lia. }
  destruct (match s with [] => _ | _ :: _ => _ end) as [[frac s1]|];
    [|discriminate].
  specialize (Hf frac s1 eq_refl).
  destruct s1 as [|c r0]; [inversion H; subst; simpl; lia|].
  destruct ((c =? 101) || (c =? 69)).
  - destruct (match r0 with [] => _ | _ :: _ => _ end) as [sign r1] eqn:Es.
    assert (List.length r1 <= List.length r0)%nat.
    { destruct r0 as [|d r0']; [inversion Es; subst; simpl; lia|].
      destruct ((d =? 43) || (d =? 45)); inversion Es; subst; simpl; lia. }
    destruct (digit_run r1) as [ds r2] eqn:Ed.
    apply digit_run_length in Ed.
    destruct ds; inversion H; subst; simpl in *; lia.
  - inversion H; subst. lia.
Qed.

Lemma no_leading_zero_nonnil (d : Decimal.uint) :
  no_leading_zero d = true -> d <> Decimal.Nil.
Proof. intros H ->. discriminate. Qed.

Lemma parse_number_length (s : text) (v : value) (r : text) :
  parse_number s = Some (v, r) -> (List.length r < List.length s)%nat.
Proof.
  unfold parse_number, number_lit. destruct s as [|c s']; [discriminate|].
  destruct (c =? 45).
  - destruct (digits s') as [d r'] eqn:Ed.
    destruct (digits_length _ _ _ Ed) as [H1 H2].
    destruct (no_leading_zero d) eqn:Ez; cbn [andb];
      [|intros H; discriminate].
    destruct (ends_number r').
    + intros H; inversion H; subst. simpl; lia.
    + destruct (number_tail r') as [[tl r'']|] eqn:Et; [|discriminate].
      apply number_tail_length in Et.
      intros H; inversion H; subst. simpl; lia.
  - destruct (digits (c :: s')) as [d r'] eqn:Ed.
    destruct (digits_length _ _ _ Ed) as [H1 H2].
    destruct (no_leading_zero d) eqn:Ez; cbn [andb];
      [|intros H; discriminate].
    specialize (H2 (no_leading_zero_nonnil d Ez)).
    destruct (ends_number r').
    + intros H; inversion H; subst. lia.
    + destruct (number_tail r') as [[tl r'']|] eqn:Et; [|discriminate].
      apply number_tail_length in Et.
      intros H; inversion H; subst. lia.
Qed.

Lemma parse_elems_length (pv : text -> option (value * text)) (n : nat) :
  consumes pv ->
  forall s vs r, parse_elems pv n s = Some (vs, r) ->
                 (List.length r < List.length s)%nat.
Proof.
  intros Hpv. induction n as [|n IH]; intros s vs r H; [discriminate|].
  cbn [parse_elems] in H.
  destruct (pv s) as [[v s1]|] eqn:E1; [|discriminate].
  apply Hpv in E1. pose proof (skip_ws_length s1) as L1.
  destruct (skip_ws s1) as [|c s2]; [discriminate|]. simpl in L1.
  destruct (c =? 44).
  - destruct (parse_elems pv n s2) as [[vs' s3]|] eqn:E2; [|discriminate].
    apply IH in E2. inversion H; subst. lia.
  - destruct (c =? 93); [|discriminate]. inversion H; subst. lia.
Qed.

Lemma parse_members_length (pv : text -> option (value * text)) (n : nat) :
  consumes pv ->
  forall acc s fs r, parse_members pv n acc s = Some (fs, r) ->
                     (List.length r < List.length s)%nat.
Proof.
  intros Hpv. induction n as [|n IH]; intros acc s fs r H; [discriminate|].
  cbn [parse_members] in H.
  pose proof (skip_ws_length s) as L0.
  destruct (skip_ws s) as [|q s0]; [discriminate|]. simpl in L0.
  destruct (q =? 34); [|discriminate].
  destruct (parse_chars s0) as [[k s1]|] eqn:E1; [|discriminate].
  apply (parse_chars_length (List.length s0)) in E1; [|lia].
  pose proof (skip_ws_length s1) as L1.
  destruct (skip_ws s1) as [|c s2]; [discriminate|]. simpl in L1.
  destruct (c =? 58); [|discriminate].
  destruct (pv s2) as [[v s3]|] eqn:E3; [|discriminate].
  apply Hpv in E3. pose proof (skip_ws_length s3) as L3.
  destruct (skip_ws s3) as [|d s4]; [discriminate|]. simpl in L3.
  destruct (d =? 44).
  - apply IH in H. lia.
  - destruct (d =? 125); [|discriminate]. inversion H; subst. lia.
Qed.

Lemma parse_value_length (f : nat) : consumes (parse_value f).
Proof.
  induction f as [|f IH]; intros s v r H; [discriminate|].
  cbn [parse_value] in H.
  pose proof (skip_ws_length s) as L0.
  destruct (skip_ws s) as [|c s0]; [discriminate|]. simpl in L0.
  destruct (c =? 110).
  { destruct (expect (lit "ull") s0) as [r'|] eqn:E; [|discriminate].
    apply expect_length in E. inversion H; subst. lia. }
  destruct (c =? 116).
  { destruct (expect (lit "rue") s0) as [r'|] eqn:E; [|discriminate].
    apply expect_length in E. inversion H; subst. lia. }
  destruct (c =? 102).
  { destruct (expect (lit "alse") s0) as [r'|] eqn:E; [|discriminate].
    apply expect_length in E. inversion H; subst. lia. }
  destruct (c =? 34).
  { destruct (parse_chars s0) as [[k r']|] eqn:E; [|discriminate].
    apply (parse_chars_length (List.length s0)) in E; [|lia].
    inversion H; subst. lia. }
  destruct (c =? 91).
  { pose proof (skip_ws_length s0) as L1.
    destruct (skip_ws s0) as [|c1 r1]; [discriminate|]. simpl in L1.
    destruct (c1 =? 93); [inversion H; subst; lia|].
    destruct (parse_elems (parse_value f) f s0) as [[vs r']|] eqn:E;
      [|discriminate].
    apply (parse_elems_length _ _ IH) in E. inversion H; subst. lia. }
  destruct (c =? 123).
  { pose proof (skip_ws_length s0) as L1.
    destruct (skip_ws s0) as [|c1 r1]; [discriminate|]. simpl in L1.
    destruct (c1 =? 125); [inversion H; subst; lia|].
    destruct (parse_members (parse_value f) f [] s0) as [[fs r']|] eqn:E;
      [|discriminate].
    apply (parse_members_length _ _ IH) in E. inversion H; subst. lia. }
  apply parse_number_length in H. simpl in H. lia.
Qed.

Lemma parse_elems_agree (pv pv' : text -> option (value * text)) :
  consumes pv ->
  forall n n' s,
    (List.length s < n)%nat -> (List.length s < n')%nat ->
    agree (List.length s) pv pv' ->
    parse_elems pv n s = parse_elems pv' n' s.
Proof.
  intros Hpv. induction n as [|n IH]; intros n' s Hn Hn' Ha; [lia|].
  destruct n' as [|n']; [lia|]. cbn [parse_elems].
  rewrite <- (Ha s) by lia.
  destruct (pv s) as [[v s1]|] eqn:E1; [|reflexivity].
  apply Hpv in E1. pose proof (skip_ws_length s1) as L1.
  destruct (skip_ws s1) as [|c s2]; [reflexivity|]. simpl in L1.
  destruct (c =? 44); [|reflexivity].
  rewrite (IH n' s2); [reflexivity | lia | lia |].
  intros s' Hs'. apply Ha. lia.
Qed.

Lemma parse_members_agree (pv pv' : text -> option (value * text)) :
  consumes pv ->
  forall n n' acc s,
    (List.length s < n)%nat -> (List.length s < n')%nat ->
    agree (List.length s) pv pv' ->
    parse_members pv n acc s = parse_members pv' n' acc s.
Proof.
  intros Hpv. induction n as [|n IH]; intros n' acc s Hn Hn' Ha; [lia|].
  destruct n' as [|n']; [lia|]. cbn [parse_members].
  pose proof (skip_ws_length s) as L0.
  destruct (skip_ws s) as [|q s0]; [reflexivity|]. simpl in L0.
  destruct (q =? 34); [|reflexivity].
  destruct (parse_chars s0) as [[k s1]|] eqn:E1; [|reflexivity].
  apply (parse_chars_length (List.length s0)) in E1; [|lia].
  pose proof (skip_ws_length s1) as L1.
  destruct (skip_ws s1) as [|c s2]; [reflexivity|]. simpl in L1.
  destruct (c =? 58); [|reflexivity].
  rewrite <- (Ha s2) by lia.
  destruct (pv s2) as [[v s3]|] eqn:E3; [|reflexivity].
  apply Hpv in E3. pose proof (skip_ws_length s3) as L3.
  destruct (skip_ws s3) as [|d s4]; [reflexivity|]. simpl in L3.
  destruct (d =? 44); [|reflexivity].
  apply IH; [lia | lia |].
  intros s' Hs'. apply Ha. lia.
Qed.

Lemma parse_value_step (f : nat) :
  forall s, (List.length s < f)%nat -> parse_value f s = parse_value (S f) s.
Proof.
  induction f as [|f IH]; intros s Hs; [lia|].
  cbn [parse_value].
  pose proof (skip_ws_length s) as L0.
  destruct (skip_ws s) as [|c s0]; [reflexivity|]. simpl in L0.
  destruct (c =? 110); [reflexivity|].
  destruct (c =? 116); [reflexivity|].
  destruct (c =? 102); [reflexivity|].
  destruct (c =? 34); [reflexivity|].
  assert (Ha : agree (List.length s0) (parse_value f) (parse_value (S f)))
    by (intros s' Hs'; apply IH; lia).
  destruct (c =? 91).
  { rewrite (parse_elems_agree _ (parse_value (S f)) (parse_value_length f)
               f (S f) s0) by (try lia; exact Ha).
    reflexivity. }
  destruct (c =? 123); [|reflexivity].
  rewrite (parse_members_agree _ (parse_value (S f)) (parse_value_length f)
             f (S f) [] s0) by (try lia; exact Ha).
  reflexivity.
Qed.

(** More fuel than the length of the text changes nothing: [JSON_parse]
    never fails for lack of fuel. *)
Theorem parse_value_fuel (s : text) (f : nat) :
  (List.length s < f)%nat ->
  parse_value f s = parse_value (S (List.length s)) s.
Proof.
  intros H. induction f as [|f IH]; [lia|].
  destruct (Nat.eq_dec f (List.length s)) as [->|Hne]; [reflexivity|].
  rewrite <- parse_value_step by lia. apply IH. lia.
Qed.

(** ** The backing store *)

Lemma getItem_setItem (k k' t : text) (s : list (text * text)) :
  getItem k (setItem k' t s) = if text_eqb k k' then Some t else getItem k s.
Proof.
  induction s as [|[k0 t0] r IH]; simpl.
  - destruct (text_eqb k k'); reflexivity.
  - destruct (text_eqb k' k0) eqn:E0; simpl.
    + apply text_eqb_eq in E0. subst k0.
      destruct (text_eqb k k'); reflexivity.
    + rewrite IH. destruct (text_eqb k k0) eqn:E1; [|reflexivity].
      apply text_eqb_eq in E1. subst k0.
      destruct (text_eqb k k') eqn:E2; [|reflexivity].
      apply text_eqb_eq in E2. subst k'.
      rewrite text_eqb_refl in E0. discriminate.
Qed.

Lemma getItem_removeItem (k k' : text) (s : list (text * text)) :
  getItem k (removeItem k' s) = if text_eqb k k' then None else getItem k s.
Proof.
  induction s as [|[k0 t0] r IH]; simpl.
  - destruct (text_eqb k k'); reflexivity.
  - destruct (text_eqb k' k0) eqn:E0; simpl.
    + rewrite IH. apply text_eqb_eq in E0. subst k0.
      destruct (text_eqb k k'); reflexivity.
    + rewrite IH. destruct (text_eqb k k0) eqn:E1; [|reflexivity].
      apply text_eqb_eq in E1. subst k0.
      destruct (text_eqb k k') eqn:E2; [|reflexivity].
      apply text_eqb_eq in E2. subst k'.
      rewrite text_eqb_refl in E0. discriminate.
Qed.

Lemma getItem_in_keys (k t : text) (s : list (text * text)) :
  getItem k s = Some t -> existsb (text_eqb k) (map fst s) = true.
Proof.
  induction s as [|[k0 t0] r IH]; simpl; [discriminate|].
  destruct (text_eqb k k0); simpl; auto.
Qed.

(** ** The scheduler pass, key by key *)

Lemma same_env_refl (a : state) : same_env a a.
Proof. repeat split. Qed.

Lemma same_env_trans (a b c : state) :
  same_env a b -> same_env b c -> same_env a c.
Proof.
  unfold same_env. intros [? [? [? ?]]] [? [? [? ?]]].
  repeat split; congruence.
Qed.

Lemma flush_key_env (force : bool) (st : state) (key : text) :
  same_env (flush_key force st key) st.
Proof.
  unfold flush_key.
  destruct (falsy_item _); [apply same_env_refl|].
  destruct (JSON_parse _); [|apply same_env_refl].
  destruct (isObject a && in_op APX a); [|apply same_env_refl].
  destruct (js_gt _ _ || force); [repeat split|].
  destruct (truthy _); [repeat split | apply same_env_refl].
Qed.

Lemma flush_key_getItem (force : bool) (st : state) (key k : text) :
  getItem k (storage (flush_key force st key))
  = if text_eqb k key
    then after_flush force (now st) (getItem k (storage st))
    else getItem k (storage st).
Proof.
  unfold flush_key, after_flush, evicted.
  destruct (text_eqb k key) eqn:Ek.
  - apply text_eqb_eq in Ek. subst key.
    destruct (getItem k (storage st)) as [[|c t]|] eqn:Eg; cbn [falsy_item];
      rewrite ?Eg; try reflexivity.
    destruct (JSON_parse (c :: t)) as [item|]; [|rewrite Eg; reflexivity].
    destruct (isObject item && in_op APX item); cbn [andb];
      [|rewrite Eg; reflexivity].
    destruct (js_gt (now st) (prop (lit "ttl") item) || force).
    + cbn [storage with_storage]. rewrite getItem_removeItem, text_eqb_refl.
      reflexivity.
    + destruct (truthy _); cbn [storage with_cbRefs]; rewrite Eg; reflexivity.
  - destruct (falsy_item _); [reflexivity|].
    destruct (JSON_parse _) as [item|]; [|reflexivity].
    destruct (isObject item && in_op APX item); [|reflexivity].
    destruct (js_gt _ _ || force).
    + cbn [storage with_storage]. rewrite getItem_removeItem, Ek. reflexivity.
    + destruct (truthy _); reflexivity.
Qed.

Lemma after_flush_idem (force : bool) (n : Z) (o : option text) :
  after_flush force n (after_flush force n o) = after_flush force n o.
Proof.
  destruct o as [t|]; simpl; [|reflexivity].
  destruct (evicted force n t) eqn:E; simpl; [reflexivity|].
  rewrite E. reflexivity.
Qed.

Lemma flush_keys_env (force : bool) (keys : list text) :
  forall st, same_env (fold_left (flush_key force) keys st) st.
Proof.
  induction keys as [|key r IH]; intros st; simpl; [apply same_env_refl|].
  eapply same_env_trans; [apply IH | apply flush_key_env].
Qed.

Lemma flush_keys_getItem (force : bool) (k : text) (keys : list text) :
  forall st,
    getItem k (storage (fold_left (flush_key force) keys st))
    = if existsb (text_eqb k) keys
      then after_flush force (now st) (getItem k (storage st))
      else getItem k (storage st).
Proof.
  induction keys as [|key r IH]; intros st; simpl; [reflexivity|].
  rewrite IH. rewrite flush_key_getItem.
  destruct (flush_key_env force st key) as [_ [_ [_ ->]]].
  destruct (text_eqb k key); simpl.
  - rewrite after_flush_idem. destruct (existsb _ r); reflexivity.
  - reflexivity.
Qed.

Lemma flush_all_getItem (force : bool) (st : state) (k : text) :
  getItem k (storage (flush_all force st))
  = after_flush force (now st) (getItem k (storage st)).
Proof.
  unfold flush_all. rewrite flush_keys_getItem.
  destruct (getItem k (storage st)) as [t|] eqn:Eg.
  - rewrite (getItem_in_keys k t _ Eg). reflexivity.
  - destruct (existsb _ _); reflexivity.
Qed.

Lemma flush_all_env (force : bool) (st : state) :
  same_env (flush_all force st) st.
Proof. apply flush_keys_env. Qed.

(** ** The availability probe *)

Lemma supportsLS_true (st : state) :
  fst (supportsLS st) = true ->
  hasLS (snd (supportsLS st)) = Some true
  /\ config (snd (supportsLS st)) = config st
  /\ now (snd (supportsLS st)) = now st
  /\ forall k, getItem k (storage (snd (supportsLS st)))
               = after_probe st (getItem k (storage st)).
Proof.
  unfold supportsLS, after_probe.
  destruct (hasLS st) as [b|] eqn:Eh; cbn [fst snd].
  - intros ->. auto.
  - intros Ha. unfold poll_probed, flush_probed.
    cbn [hasLS with_cbRefs with_hasLS]. rewrite Ha.
    match goal with |- context [flush_all false ?s] => set (s0 := s) end.
    destruct (flush_all_env false s0) as [E1 [E2 [E3 E4]]].
    rewrite E1, E3, E4. repeat split.
    intros k. rewrite flush_all_getItem. reflexivity.
Qed.

Lemma supportsLS_probed (st : state) :
  hasLS st = Some true -> supportsLS st = (true, st).
Proof. unfold supportsLS. intros ->. reflexivity. Qed.

Lemma supportsLS_false (st : state) :
  fst (supportsLS st) = false -> storage (snd (supportsLS st)) = storage st.
Proof.
  unfold supportsLS.
  destruct (hasLS st) as [b|] eqn:Eh; cbn [fst snd]; [reflexivity|].
  intros Ha. unfold poll_probed, flush_probed.
  cbn [hasLS with_cbRefs with_hasLS]. rewrite Ha. reflexivity.
Qed.

Lemma evicted_force (n : Z) (t : text) : evicted true n t = is_envelope t.
Proof.
  unfold evicted, is_envelope. destruct t as [|c t]; [reflexivity|].
  destruct (JSON_parse (c :: t)); [|reflexivity].
  rewrite orb_true_r, andb_true_r. reflexivity.
Qed.

Lemma evicted_mono (n : Z) (t : text) :
  evicted false n t = true -> evicted true n t = true.
Proof.
  unfold evicted. destruct t as [|c t]; [discriminate|].
  destruct (JSON_parse (c :: t)); [|discriminate].
  rewrite orb_false_r, orb_true_r, andb_true_r.
  rewrite andb_true_iff. tauto.
Qed.

Lemma after_flush_force_probe (st : state) (o : option text) :
  after_flush true (now st) (after_probe st o) = after_flush true (now st) o.
Proof.
  unfold after_probe. destruct (hasLS st); [reflexivity|].
  destruct o as [t|]; simpl; [|reflexivity].
  destruct (evicted false (now st) t) eqn:E; simpl; [|reflexivity].
  rewrite (evicted_mono _ _ E). reflexivity.
Qed.

Lemma flush_getItem (force : bool) (st : state) (k : text) :
  fst (supportsLS st) = true ->
  getItem k (storage (flush force st))
  = after_flush force (now st) (after_probe st (getItem k (storage st))).
Proof.
  intros H. unfold flush.
  destruct (supportsLS_true st H) as [_ [_ [En Eg]]].
  destruct (supportsLS st) as [ok st1]. cbn [fst snd] in *. subst ok.
  rewrite flush_all_getItem, En, Eg. reflexivity.
Qed.

(** What [poll(true)] leaves under a key of an available store. *)
Lemma poll_force_getItem (st : state) (k : text) :
  fst (supportsLS st) = true ->
  getItem k (storage (poll true st))
  = match getItem k (storage st) with
    | Some t => if is_envelope t then None else Some t
    | None => None
    end.
Proof.
  intros H. unfold poll.
  assert (H' : fst (supportsLS (with_cbRefs st [])) = true).
  { revert H. unfold supportsLS. cbn [hasLS available with_cbRefs].
    destruct (hasLS st); auto. }
  rewrite (flush_getItem true _ k H').
  change (now (with_cbRefs st [])) with (now st).
  change (storage (with_cbRefs st [])) with (storage st).
  change (after_probe (with_cbRefs st []) (getItem k (storage st)))
    with (after_probe st (getItem k (storage st))).
  rewrite after_flush_force_probe.
  destruct (getItem k (storage st)) as [t|]; simpl; [|reflexivity].
  rewrite evicted_force. reflexivity.
Qed.

Lemma ttl_envelope_has_marker (t : text) :
  is_ttl_envelope t = true -> is_envelope t = true.
Proof.
  unfold is_ttl_envelope, is_envelope.
  destruct (JSON_parse t); [|discriminate].
  rewrite andb_true_iff. tauto.
Qed.

(** C7, as worded, fails in both directions.  An object with a property
    under the marker key that was stored without TTL is not a TTL envelope
    (it has no [ttl] field), yet [poll(true)] removes it.  And [set] of
    [undefined] with a TTL of 5 seconds stores the object [{ ttl: 6000 }]
    without the marker key, which [poll(true)] leaves in the store. *)
Lemma poll_force_misjudges_entries :
  getItem (lit "k")
    (storage (snd (set (lit "k") marker_object empty_config (ready []))))
  = Some (text_of marker_object)
  /\ is_ttl_envelope (text_of marker_object) = false
  /\ getItem (lit "k")
       (storage (poll true
                   (snd (set (lit "k") marker_object empty_config
                           (ready [])))))
     = None
  /\ getItem (lit "u")
       (storage (snd (set (lit "u") VUndefined (ttl_config 5) (ready []))))
     = Some (text_of (VObj [(lit "ttl", VNum 6000)]))
  /\ getItem (lit "u")
       (storage (poll true
                   (snd (set (lit "u") VUndefined (ttl_config 5)
                           (ready [])))))
     = Some (text_of (VObj [(lit "ttl", VNum 6000)])).
Proof. repeat split; vm_compute; reflexivity. Qed.

(** C7: when the store is available, [poll(true)] removes every entry whose
    text parses to an object that has the marker key, whatever its expiry:
    this covers every TTL envelope, and also an object with a property
    under the marker key that was stored without TTL.  Every other entry
    (unparseable foreign text, a plain value, an object without the marker
    key) is left as it was, and no entry is added. *)
Theorem poll_force_removes_marked_entries (st : state) (k : text) :
  fst (supportsLS st) = true ->
  getItem k (storage (poll true st))
  = match getItem k (storage st) with
    | Some t => if is_envelope t then None else Some t
    | None => None
    end
  /\ (forall t, getItem k (storage st) = Some t ->
                is_ttl_envelope t = true ->
                getItem k (storage (poll true st)) = None).
Proof.
  intros H. pose proof (poll_force_getItem st k H) as E.
  split; [exact E|].
  intros t Hg Ht. rewrite E, Hg, (ttl_envelope_has_marker t Ht).
  reflexivity.
Qed.

(** ** Foreign entries *)

(** C1: on a store holding the foreign text [abc] under [k], [flush] skips
    the entry and leaves the store as it was, but [get] raises: its
    [JSON.parse] call is outside any [try]. *)
Theorem get_raises_on_foreign_entry :
  fst (get (lit "k") empty_config foreign_store) = Throw
  /\ storage (flush false foreign_store) = storage foreign_store
  /\ storage (flush true foreign_store) = storage foreign_store.
Proof. repeat split; vm_compute; reflexivity. Qed.

(** ** Merging the configurations *)

(** C2, as worded, fails for the override [ttl: 0]: it does not win over a
    default TTL of 5 seconds, the default is used. *)
Lemma merge_ttl_zero_does_not_win :
  ttl (merge (with_ttl default_config (TtlNum 5)) (ttl_config 0)) = TtlNum 5
  /\ ttl (merge (with_ttl default_config (TtlNum 5)) (ttl_config 0))
     <> TtlNum 0.
Proof. split; [reflexivity | discriminate]. Qed.

(** C2: in the configuration that [set] and [get] compute, an override
    [encrypt: false] or [ttl: null] disables the default, an absent field
    falls back to the default, [encrypt: true] and a non-zero [ttl] win, and
    the override [ttl: 0] falls back to the default like an absent one. *)
Theorem merge_precedence (g l : LocalStorageConfig) (n : Z) :
  encrypt (merge g (with_encrypt l (Some false))) = Some false
  /\ ttl (merge g (with_ttl l TtlNull)) = TtlNull
  /\ encrypt (merge g (with_encrypt l None)) = encrypt g
  /\ ttl (merge g (with_ttl l TtlUndefined)) = ttl g
  /\ encrypt (merge g (with_encrypt l (Some true))) = Some true
  /\ ttl (merge g (with_ttl l (TtlNum n)))
     = (if n =? 0 then ttl g else TtlNum n).
Proof. repeat split. Qed.

(** ** [set] then [get], no TTL, default configuration *)

Lemma serialize_nonempty (v : value) (t : text) :
  wf_value v = true -> serialize v = Ret (Some t) ->
  falsy_item (Some t) = false.
Proof.
  intros Hwf H. apply serialize_starts in H; [|exact Hwf].
  destruct t; [contradiction | reflexivity].
Qed.

Lemma isObject_in_op (k : text) (item : value) :
  isObject item && in_op k item = in_op k item.
Proof. destruct item; reflexivity. Qed.

Lemma set_plain (st : state) (k : text) (v : value) (t : text) :
  fst (supportsLS st) = true -> config st = default_config ->
  JSON_stringify v = Ret (Some t) ->
  set k v empty_config st
  = (VUndefined,
     with_storage (snd (supportsLS st))
       (setItem k t (storage (snd (supportsLS st))))).
Proof.
  intros Hok Hc Hs. unfold set.
  destruct (supportsLS_true st Hok) as [Hh [Hc1 [Hn Hg]]].
  destruct (supportsLS st) as [ok st1]. cbn [fst snd] in *. subst ok.
  cbn [negb]. rewrite Hc1, Hc.
  unfold encode. cbn [merge default_config empty_config hasTTL_of ttl merge_ttl
                        encrypt merge_encrypt is_true cb or_else bind].
  rewrite Hs. reflexivity.
Qed.

Lemma get_after_set_plain (st : state) (k : text) (v : value) (t : text) :
  fst (supportsLS st) = true -> config st = default_config ->
  wf_value v = true -> JSON_stringify v = Ret (Some t) ->
  let st2 := snd (set k v empty_config st) in
  get k empty_config st2
  = if in_op APX (codec v) then
      if js_gt (now st) (prop (lit "ttl") (codec v))
      then (Ret VNull, with_storage st2 (removeItem k (storage st2)))
      else (Ret (prop APX (codec v)), st2)
    else (Ret (codec v), st2).
Proof.
  intros Hok Hc Hwf Hs st2'. subst st2'.
  rewrite (set_plain st k v t Hok Hc Hs). cbn [snd].
  destruct (supportsLS_true st Hok) as [Hh [Hc1 [Hn Hg]]].
  set (st1 := snd (supportsLS st)) in *.
  set (st2 := with_storage st1 (setItem k t (storage st1))).
  unfold get.
  rewrite (supportsLS_probed st2) by exact Hh.
  cbn [negb]. change (storage st2) with (setItem k t (storage st1)).
  rewrite getItem_setItem, text_eqb_refl.
  rewrite (serialize_nonempty v t Hwf Hs).
  rewrite (JSON_round_trip v t Hwf Hs).
  change (config st2) with (config st1). rewrite Hc1, Hc.
  unfold reverse.
  cbn [merge default_config empty_config decrypt encrypt merge_encrypt
         or_else is_true orb].
  rewrite isObject_in_op.
  change (now st2) with (now st1). rewrite Hn.
  destruct (in_op APX (codec v)); reflexivity.
Qed.

(** C3, as worded, fails for an object that has a property under the marker
    key: after [set] without TTL, [get] returns that property, not the
    object. *)
Lemma get_after_set_marker_object :
  fst (get (lit "k") empty_config
         (snd (set (lit "k") marker_object empty_config (ready []))))
  = Ret (VNum 1)
  /\ stringify_parse marker_object = Ret marker_object
  /\ Ret (VNum 1) <> Ret marker_object.
Proof. repeat split; try (vm_compute; reflexivity). discriminate. Qed.

(** C3: on an available store with the default configuration and no TTL,
    [set] stores [v] and a following [get] returns [codec v], the round trip
    of [v] through the text codec (properties without a JSON form dropped,
    [null] kept), for every serializable [v] whose round trip is not an
    object with a property under the marker key. *)
Theorem get_after_set (st : state) (k : text) (v : value) (t : text) :
  fst (supportsLS st) = true -> config st = default_config ->
  wf_value v = true -> JSON_stringify v = Ret (Some t) ->
  in_op APX (codec v) = false ->
  fst (set k v empty_config st) = VUndefined
  /\ stringify_parse v = Ret (codec v)
  /\ fst (get k empty_config (snd (set k v empty_config st)))
     = Ret (codec v).
Proof.
  intros Hok Hc Hwf Hs Hm. split; [|split].
  - rewrite (set_plain st k v t Hok Hc Hs). reflexivity.
  - unfold stringify_parse. rewrite Hs. cbn [bind].
    apply JSON_round_trip; assumption.
  - rewrite (get_after_set_plain st k v t Hok Hc Hwf Hs), Hm. reflexivity.
Qed.

(** C10, as worded, fails for an object that has, next to the property
    under the marker key, its own [ttl] property below the current time:
    [get] returns [null] and removes the entry. *)
Lemma get_after_set_marker_ttl_object :
  fst (get (lit "k") empty_config
         (snd (set (lit "k") marker_ttl_object empty_config (ready []))))
  = Ret VNull
  /\ prop APX marker_ttl_object = VNum 1
  /\ Ret VNull <> Ret (VNum 1)
  /\ storage (snd (get (lit "k") empty_config
                     (snd (set (lit "k") marker_ttl_object empty_config
                             (ready [])))))
     = [].
Proof. repeat split; try (vm_compute; reflexivity). discriminate. Qed.

(** C10: [get] detects the envelope by the marker key alone.  After [set]
    without TTL of a value whose round trip is an object with a property
    under the marker key (and whose own [ttl] property, if any, is null, a
    boolean or a number), [get] takes the object for an envelope: it returns
    the property under the marker key and leaves the entry, unless the
    object's own [ttl] property is below the current time, in which case it
    returns [null] and removes the entry. *)
Theorem get_misreads_marker_object (st : state) (k : text) (v : value)
  (t : text) :
  fst (supportsLS st) = true -> config st = default_config ->
  wf_value v = true -> JSON_stringify v = Ret (Some t) ->
  in_op APX (codec v) = true ->
  number_like (prop (lit "ttl") (codec v)) = true ->
  let r := get k empty_config (snd (set k v empty_config st)) in
  fst r = (if js_gt (now st) (prop (lit "ttl") (codec v))
           then Ret VNull else Ret (prop APX (codec v)))
  /\ getItem k (storage (snd r))
     = (if js_gt (now st) (prop (lit "ttl") (codec v))
        then None else Some t).
Proof.
  intros Hok Hc Hwf Hs Hm _ r. subst r.
  rewrite (get_after_set_plain st k v t Hok Hc Hwf Hs), Hm.
  rewrite (set_plain st k v t Hok Hc Hs). cbn [snd].
  destruct (js_gt (now st) (prop (lit "ttl") (codec v))); cbn [fst snd].
  - split; [reflexivity|].
    cbn [storage with_storage]. rewrite getItem_removeItem, text_eqb_refl.
    reflexivity.
  - split; [reflexivity|].
    cbn [storage with_storage]. rewrite getItem_setItem, text_eqb_refl.
    reflexivity.
Qed.

(** ** A value that cannot be serialized *)

Lemma supportsLS_env (st : state) :
  config (snd (supportsLS st)) = config st
  /\ now (snd (supportsLS st)) = now st.
Proof.
  unfold supportsLS. destruct (hasLS st) as [b|]; cbn [snd]; [auto|].
  unfold poll_probed, flush_probed. cbn [hasLS with_cbRefs with_hasLS].
  destruct (available st); [|auto].
  match goal with |- context [flush_all false ?s] => set (s0 := s) end.
  destruct (flush_all_env false s0) as [_ [_ [E3 E4]]].
  rewrite E3, E4. auto.
Qed.

Lemma obfus_unserializable (v : value) (key : option Z) :
  JSON_stringify v = Throw -> obfus v key true = Throw.
Proof. unfold obfus. intros ->. reflexivity. Qed.

Lemma encode_unserializable (v : value) (conf : LocalStorageConfig) (n : Z) :
  JSON_stringify v = Throw ->
  (is_true (encrypt conf) = true ->
   call (encrypter conf) v (secret conf) = Throw) ->
  encode v conf n = Throw.
Proof.
  intros Hs He. unfold encode.
  destruct (hasTTL_of conf) as [t|].
  - destruct (is_true (encrypt conf)).
    + change (prop APX (VObj [(APX, v); (lit "ttl", VNum (n + t * 1000))]))
        with v.
      rewrite He by reflexivity. reflexivity.
    + cbn [bind]. unfold JSON_stringify in *.
      destruct (cb conf) as [src|]; cbn; rewrite Hs; reflexivity.
  - destruct (is_true (encrypt conf)).
    + rewrite He by reflexivity. reflexivity.
    + cbn [bind]. rewrite Hs. reflexivity.
Qed.

(** C5: when the serialization of the value fails ([JSON.stringify] throws,
    as on a circular structure; with obfuscation on, the encrypter fails on
    the value, as the built-in one then does), [set] returns [false] and
    writes nothing: the store is as the availability probe left it, that
    is, unchanged once the probe has run. *)
Theorem set_unserializable (st : state) (k : text) (v : value)
  (l : LocalStorageConfig) :
  JSON_stringify v = Throw ->
  (is_true (encrypt (merge (config st) l)) = true ->
   call (encrypter (merge (config st) l)) v (secret (merge (config st) l))
   = Throw) ->
  fst (set k v l st) = VBool false
  /\ storage (snd (set k v l st)) = storage (snd (supportsLS st))
  /\ (hasLS st <> None -> storage (snd (set k v l st)) = storage st).
Proof.
  intros Hs He.
  assert (E : set k v l st = (VBool false, snd (supportsLS st))).
  { unfold set. destruct (supportsLS_env st) as [Hc Hn].
    destruct (supportsLS st) as [ok st1]. cbn [snd] in *.
    destruct ok; cbn [negb]; [|reflexivity].
    rewrite Hc, Hn, (encode_unserializable v _ _ Hs He). reflexivity. }
  rewrite E. cbn [fst snd]. repeat split.
  intros Hp. unfold supportsLS. destruct (hasLS st); [reflexivity|].
  contradiction.
Qed.

(** ** Reading an entry *)

Lemma JSON_parse_nonempty (t : text) (item : value) :
  JSON_parse t = Ret item -> falsy_item (Some t) = false.
Proof. destruct t; [discriminate | reflexivity]. Qed.

Lemma lookup_assign_other (k k' : text) (v : value)
  (fs : list (text * value)) :
  text_eqb k k' = false -> lookup k (assign k' v fs) = lookup k fs.
Proof.
  intros Hk. induction fs as [|[k0 v0] r IH]; simpl.
  - rewrite Hk. reflexivity.
  - destruct (text_eqb k' k0) eqn:E0; simpl.
    + apply text_eqb_eq in E0. subst k0. rewrite Hk. reflexivity.
    + rewrite IH. reflexivity.
Qed.

Lemma prop_set_prop_other (k k' : text) (v item : value) :
  text_eqb k k' = false -> prop k (set_prop k' v item) = prop k item.
Proof.
  intros Hk. destruct item; try reflexivity.
  simpl. rewrite lookup_assign_other by assumption. reflexivity.
Qed.

Lemma reverse_keeps_ttl (conf : LocalStorageConfig) (item : value) :
  prop (lit "ttl") (reverse conf true item) = prop (lit "ttl") item.
Proof.
  unfold reverse. destruct (is_true (decrypt conf) || is_true (encrypt conf));
    [|reflexivity].
  destruct (call (decrypter_of conf) (prop APX item) (secret conf));
    cbn [bind]; [|reflexivity].
  apply prop_set_prop_other. reflexivity.
Qed.

Lemma reverse_off (conf : LocalStorageConfig) (hasTTL : bool) (item : value) :
  is_true (decrypt conf) || is_true (encrypt conf) = false ->
  reverse conf hasTTL item = item.
Proof. unfold reverse. intros ->. reflexivity. Qed.

(** [get] on an initialised store, for an entry whose text parses. *)
Lemma get_entry (st : state) (k : text) (l : LocalStorageConfig) (t : text)
  (item : value) :
  hasLS st = Some true -> getItem k (storage st) = Some t ->
  JSON_parse t = Ret item ->
  get k l st
  = let hasTTL := in_op APX item in
    let item' := reverse (merge (config st) l) hasTTL item in
    if negb hasTTL then (Ret item', st)
    else if js_gt (now st) (prop (lit "ttl") item')
         then (Ret VNull, with_storage st (removeItem k (storage st)))
         else (Ret (prop APX item'), st).
Proof.
  intros Hh Hg Hp. unfold get. rewrite (supportsLS_probed st Hh).
  cbn [negb]. rewrite Hg, (JSON_parse_nonempty t item Hp), Hp.
  rewrite isObject_in_op. reflexivity.
Qed.

Lemma get_absent (st : state) (k : text) (l : LocalStorageConfig) :
  hasLS st = Some true -> getItem k (storage st) = None ->
  get k l st = (Ret VNull, st).
Proof.
  intros Hh Hg. unfold get. rewrite (supportsLS_probed st Hh).
  cbn [negb]. rewrite Hg. reflexivity.
Qed.

Lemma get_unfold_probe (st : state) (k : text) (l : LocalStorageConfig) :
  fst (supportsLS st) = true ->
  get k l st = get k l (snd (supportsLS st)).
Proof.
  intros Hok. destruct (supportsLS_true st Hok) as [Hh _].
  unfold get at 2. rewrite (supportsLS_probed _ Hh).
  unfold get. destruct (supportsLS st) as [ok st1]. cbn [fst snd] in *.
  subst ok. reflexivity.
Qed.

Lemma evicted_envelope (n e : Z) (t : text) (item : value) :
  JSON_parse t = Ret item -> in_op APX item = true ->
  prop (lit "ttl") item = VNum e ->
  evicted false n t = (e <? n).
Proof.
  intros Hp Hm Ht. unfold evicted. destruct t as [|c t]; [discriminate|].
  rewrite Hp, isObject_in_op, Hm, Ht. cbn [andb]. unfold js_gt. cbn [ToNumber].
  apply orb_false_r.
Qed.

(** C6: on an available store, for a key whose text parses to a TTL envelope
    with expiry [e]: when [e] is in the past, [get] returns [null] and the
    key is gone from the store; otherwise [get] returns the payload under
    the marker key (after the requested deobfuscation, none by default) and
    the entry stays. *)
Theorem get_envelope (st : state) (k : text) (l : LocalStorageConfig)
  (t : text) (item : value) (e : Z) :
  fst (supportsLS st) = true ->
  getItem k (storage st) = Some t -> JSON_parse t = Ret item ->
  in_op APX item = true -> prop (lit "ttl") item = VNum e ->
  fst (get k l st)
  = (if e <? now st then Ret VNull
     else Ret (prop APX (reverse (merge (config st) l) true item)))
  /\ getItem k (storage (snd (get k l st)))
     = (if e <? now st then None else Some t)
  /\ (is_true (decrypt (merge (config st) l))
      || is_true (encrypt (merge (config st) l)) = false ->
      prop APX (reverse (merge (config st) l) true item) = prop APX item).
Proof.
  intros Hok Hg Hp Hm Ht.
  split; [|split]; [| |intros Hoff; rewrite reverse_off by exact Hoff;
                        reflexivity];
    rewrite (get_unfold_probe st k l Hok);
    destruct (supportsLS_true st Hok) as [Hh [Hc [Hn Hs]]];
    specialize (Hs k); rewrite Hg in Hs;
    set (st1 := snd (supportsLS st)) in *;
    assert (Hcase : (e <? now st) = true /\ getItem k (storage st1) = None
                    \/ getItem k (storage st1) = Some t).
  1, 3: (unfold after_probe in Hs; destruct (hasLS st); [right; exact Hs|];
         cbn [after_flush] in Hs;
         rewrite (evicted_envelope (now st) e t item Hp Hm Ht) in Hs;
         destruct (e <? now st); [left | right]; auto).
  - destruct Hcase as [[He Hnone] | Hsome].
    + rewrite (get_absent st1 k l Hh Hnone), He. reflexivity.
    + rewrite (get_entry st1 k l t item Hh Hsome Hp). cbv zeta.
      rewrite Hm. cbn [negb]. rewrite reverse_keeps_ttl, Ht, Hc, Hn.
      unfold js_gt. cbn [ToNumber].
      destruct (e <? now st); reflexivity.
  - destruct Hcase as [[He Hnone] | Hsome].
    + rewrite (get_absent st1 k l Hh Hnone), He. exact Hnone.
    + rewrite (get_entry st1 k l t item Hh Hsome Hp). cbv zeta.
      rewrite Hm. cbn [negb]. rewrite reverse_keeps_ttl, Ht, Hn.
      unfold js_gt. cbn [ToNumber].
      destruct (e <? now st); cbn [snd storage with_storage].
      * rewrite getItem_removeItem, text_eqb_refl. reflexivity.
      * exact Hsome.
Qed.

(** ** A decrypter that throws *)

Lemma reverse_throw (conf : LocalStorageConfig) (item : value) :
  call (decrypter_of conf)
    (if in_op APX item then prop APX item else item) (secret conf) = Throw ->
  reverse conf (in_op APX item) item = item.
Proof.
  unfold reverse. intros H.
  destruct (is_true (decrypt conf) || is_true (encrypt conf)); [|reflexivity].
  destruct (in_op APX item); rewrite H; reflexivity.
Qed.

Lemma evicted_parsed (n : Z) (t : text) (item : value) :
  JSON_parse t = Ret item ->
  evicted false n t = in_op APX item && js_gt n (prop (lit "ttl") item).
Proof.
  intros Hp. unfold evicted. destruct t as [|c t]; [discriminate|].
  rewrite Hp, isObject_in_op, orb_false_r. reflexivity.
Qed.

Lemma after_probe_cases (st : state) (t : text) :
  after_probe st (Some t) = Some t \/ after_probe st (Some t) = None.
Proof.
  unfold after_probe, after_flush. destruct (hasLS st); [auto|].
  destruct (evicted false (now st) t); auto.
Qed.

(** C9: on an available store, when deobfuscation is requested for an entry
    whose text parses and the decrypter throws on it (wrong secret,
    corrupted text, an entry that was never obfuscated), [get] does not
    raise and behaves as a read that asks for no deobfuscation: it returns
    the parsed value as it is, or for an envelope its payload as it is, or
    [null] for an expired envelope. *)
Theorem get_survives_decrypter_throw (st : state) (k : text)
  (l : LocalStorageConfig) (t : text) (item : value) :
  fst (supportsLS st) = true ->
  getItem k (storage st) = Some t -> JSON_parse t = Ret item ->
  is_true (decrypt (merge (config st) l))
  || is_true (encrypt (merge (config st) l)) = true ->
  call (decrypter_of (merge (config st) l))
    (if in_op APX item then prop APX item else item)
    (secret (merge (config st) l)) = Throw ->
  get k l st = get k (without_reverse l) st
  /\ (fst (get k l st) = Ret (if in_op APX item then prop APX item else item)
      \/ in_op APX item = true /\ fst (get k l st) = Ret VNull).
Proof.
  intros Hok Hg Hp Hon Hthrow.
  rewrite !(get_unfold_probe st k _ Hok).
  destruct (supportsLS_true st Hok) as [Hh [Hc [Hn Hs]]].
  specialize (Hs k). rewrite Hg in Hs.
  set (st1 := snd (supportsLS st)) in *.
  destruct (after_probe_cases st t) as [E | E]; rewrite E in Hs.
  - rewrite !(get_entry st1 k _ t item Hh Hs Hp). cbv zeta.
    rewrite Hc, (reverse_throw _ item Hthrow).
    rewrite (reverse_off (merge (config st) (without_reverse l)))
      by reflexivity.
    split; [reflexivity|].
    destruct (in_op APX item); cbn [negb]; [|left; reflexivity].
    destruct (js_gt (now st1) (prop (lit "ttl") item));
      [right; split | left]; reflexivity.
  - rewrite !(get_absent st1 k _ Hh Hs). split; [reflexivity|].
    unfold after_probe in E. destruct (hasLS st); [discriminate|].
    cbn [after_flush] in E.
    rewrite (evicted_parsed (now st) t item Hp) in E.
    destruct (in_op APX item); [right; split; reflexivity|].
    discriminate.
Qed.

(** ** Writing with a TTL *)





(** ** The built-in obfuscator *)


(** C8: with the built-in transform and the default secret 75, an
    obfuscated [set] of the one-character string U+1F600 followed by [get]
    with obfuscation on returns a string holding only the first half of
    the surrogate pair, not the original: the transform walks the text by
    code points and keeps one code unit of each. *)
Theorem obfuscated_round_trip_loses_astral :
  fst (set (lit "k") astral_string encrypt_config (ready [])) = VUndefined
  /\ fst (get (lit "k") encrypt_config
            (snd (set (lit "k") astral_string encrypt_config (ready []))))
     = Ret (VStr [55357])
  /\ Ret (VStr [55357]) <> Ret astral_string.
Proof. repeat split; try (vm_compute; reflexivity). discriminate. Qed.

(** ** The theorems at sample inputs *)

Lemma poll_force_removes_marked_entries_witness :
  fst (supportsLS (fresh sample_content)) = true
  /\ is_ttl_envelope (text_of (envelope (VStr (lit "v")) 99999 None)) = true
  /\ getItem (lit "live") (storage (poll true (fresh sample_content)))
     = None
  /\ getItem (lit "word") (storage (poll true (fresh sample_content)))
     = Some (lit "abc").
Proof.
  split; [reflexivity|]. split; [reflexivity|]. split.
  - exact (proj2 (poll_force_removes_marked_entries (fresh sample_content)
                    (lit "live") eq_refl)
             (text_of (envelope (VStr (lit "v")) 99999 None))
             eq_refl eq_refl).
  - exact (proj1 (poll_force_removes_marked_entries (fresh sample_content)
                    (lit "word") eq_refl)).
Defined.

Lemma get_after_set_witness :
  fst (supportsLS (fresh sample_content)) = true
  /\ in_op APX (codec sample_value) = false
  /\ fst (get (lit "k") empty_config
            (snd (set (lit "k") sample_value empty_config
                    (fresh sample_content))))
     = Ret (codec sample_value).
Proof.
  split; [reflexivity|]. split; [reflexivity|].
  apply (get_after_set (fresh sample_content) (lit "k") sample_value
           (text_of sample_value)); reflexivity.
Defined.

Lemma get_misreads_marker_object_witness :
  in_op APX (codec marker_object) = true
  /\ fst (get (lit "k") empty_config
            (snd (set (lit "k") marker_object empty_config (ready []))))
     = (if js_gt (now (ready [])) (prop (lit "ttl") (codec marker_object))
        then Ret VNull else Ret (prop APX (codec marker_object))).
Proof.
  split; [reflexivity|].
  apply (get_misreads_marker_object (ready []) (lit "k") marker_object
           (text_of marker_object)); reflexivity.
Defined.

Lemma set_unserializable_witness :
  JSON_stringify VCyclic = Throw
  /\ is_true (encrypt (merge (config (ready sample_content)) encrypt_config))
     = true
  /\ fst (set (lit "k") VCyclic encrypt_config (ready sample_content))
     = VBool false
  /\ storage (snd (set (lit "k") VCyclic encrypt_config
                     (ready sample_content)))
     = storage (ready sample_content).
Proof.
  split; [reflexivity|]. split; [reflexivity|].
  destruct (set_unserializable (ready sample_content) (lit "k") VCyclic
              encrypt_config) as [H1 [H2 _]];
    [reflexivity | intros _; reflexivity | ].
  split; [exact H1 | exact H2].
Defined.

Lemma get_envelope_witness :
  getItem (lit "old") (storage (ready sample_content))
  = Some (text_of (envelope (VStr (lit "w")) 500 None))
  /\ fst (get (lit "old") empty_config (ready sample_content)) = Ret VNull
  /\ getItem (lit "old")
       (storage (snd (get (lit "old") empty_config (ready sample_content))))
     = None.
Proof.
  split; [reflexivity|].
  destruct (get_envelope (ready sample_content) (lit "old") empty_config
              (text_of (envelope (VStr (lit "w")) 500 None))
              (envelope (VStr (lit "w")) 500 None) 500) as [H1 [H2 _]];
    try reflexivity.
  split; [exact H1 | exact H2].
Defined.

Lemma get_survives_decrypter_throw_witness :
  call (decrypter_of (merge (config (ready sample_content)) encrypt_config))
    (VStr (lit "abc"))
    (secret (merge (config (ready sample_content)) encrypt_config)) = Throw
  /\ get (lit "plain") encrypt_config (ready sample_content)
     = (Ret (VStr (lit "abc")), ready sample_content).
Proof.
  split; [reflexivity|].
  destruct (get_survives_decrypter_throw (ready sample_content) (lit "plain")
              encrypt_config (text_of (VStr (lit "abc"))) (VStr (lit "abc"))
              eq_refl eq_refl eq_refl eq_refl eq_refl) as [H _].
  rewrite H. reflexivity.
Defined.


(** * Further properties of [ls.ts] *)

(** ** The probe is memoised *)

(** X1: [supportsLS] stores its answer in [hasLS] on the first call; every
    later call returns that answer and changes nothing, also when the
    availability of [localStorage] has changed in between. *)
Theorem supportsLS_memoised (st : state) (a : bool) :
  hasLS (snd (supportsLS st)) = Some (fst (supportsLS st))
  /\ supportsLS (with_available (snd (supportsLS st)) a)
     = (fst (supportsLS st), with_available (snd (supportsLS st)) a).
Proof.
  assert (H : hasLS (snd (supportsLS st)) = Some (fst (supportsLS st))).
  { unfold supportsLS. destruct (hasLS st) as [b|] eqn:E; cbn [fst snd].
    - exact E.
    - unfold poll_probed, flush_probed. cbn [hasLS with_cbRefs with_hasLS].
      destruct (available st); [|reflexivity].
      match goal with |- context [flush_all false ?s] => set (s0 := s) end.
      destruct (flush_all_env false s0) as [E1 _]. rewrite E1. reflexivity. }
  split; [exact H|].
  unfold supportsLS at 1. cbn [hasLS with_available]. rewrite H. reflexivity.
Qed.

(** ** An unavailable store *)

(** X2: when the probe answers no, [set], [remove] and [clear] return
    [false], [get] returns [null], and no operation, [flush] and [poll]
    included, changes the store. *)
Theorem unavailable_degrades (st : state) (k : text) (v : value)
  (l : LocalStorageConfig) (force : bool) :
  fst (supportsLS st) = false ->
  set k v l st = (VBool false, snd (supportsLS st))
  /\ get k l st = (Ret VNull, snd (supportsLS st))
  /\ remove k st = (VBool false, snd (supportsLS st))
  /\ clear st = (VBool false, snd (supportsLS st))
  /\ flush force st = snd (supportsLS st)
  /\ storage (snd (supportsLS st)) = storage st
  /\ storage (poll force st) = storage st.
Proof.
  intros H. pose proof (supportsLS_false st H) as Hs.
  assert (Hp : fst (supportsLS (with_cbRefs st [])) = false).
  { revert H. unfold supportsLS. cbn [hasLS available with_cbRefs].
    destruct (hasLS st); auto. }
  pose proof (supportsLS_false _ Hp) as Hs'.
  unfold set, get, remove, clear, poll, flush.
  destruct (supportsLS (with_cbRefs st [])) as [ok' st1'].
  destruct (supportsLS st) as [ok st1]. cbn [fst snd] in *. subst ok ok'.
  cbn [negb]. repeat split; try reflexivity; assumption.
Qed.

(** ** Absent keys, [remove] and [clear] *)

Lemma get_falsy_item (st : state) (k : text) (l : LocalStorageConfig) :
  hasLS st = Some true -> falsy_item (getItem k (storage st)) = true ->
  get k l st = (Ret VNull, st).
Proof.
  intros Hh Hf. unfold get. rewrite (supportsLS_probed st Hh).
  cbn [negb]. rewrite Hf. reflexivity.
Qed.

(** X5: on an available store, [get] of a key that is absent, or that holds
    the empty text, returns [null] and leaves the store as the probe left
    it (unchanged once the probe has run). *)
Theorem get_absent_or_empty (st : state) (k : text) (l : LocalStorageConfig) :
  fst (supportsLS st) = true ->
  falsy_item (getItem k (storage st)) = true ->
  get k l st = (Ret VNull, snd (supportsLS st)).
Proof.
  intros Hok Hf. rewrite (get_unfold_probe st k l Hok).
  destruct (supportsLS_true st Hok) as [Hh [_ [_ Hg]]].
  apply get_falsy_item; [exact Hh|]. rewrite Hg.
  destruct (getItem k (storage st)) as [[|c t]|]; try discriminate;
    unfold after_probe, after_flush; destruct (hasLS st); reflexivity.
Qed.

(** X3: on an available store, after [remove(k)] a [get(k)] returns [null];
    under every other key the store holds what the probe left there. *)
Theorem remove_then_get (st : state) (k k' : text) (l : LocalStorageConfig) :
  fst (supportsLS st) = true ->
  fst (remove k st) = VUndefined
  /\ get k l (snd (remove k st)) = (Ret VNull, snd (remove k st))
  /\ getItem k' (storage (snd (remove k st)))
     = if text_eqb k' k then None
       else after_probe st (getItem k' (storage st)).
Proof.
  intros Hok. destruct (supportsLS_true st Hok) as [Hh [_ [_ Hg]]].
  unfold remove. destruct (supportsLS st) as [ok st1]. cbn [fst snd] in *.
  subst ok. cbn [negb fst snd]. split; [reflexivity|].
  split.
  - apply get_falsy_item; [exact Hh|].
    cbn [storage with_storage]. rewrite getItem_removeItem, text_eqb_refl.
    reflexivity.
  - cbn [storage with_storage]. rewrite getItem_removeItem, Hg. reflexivity.
Qed.

(** X4: on an available store, after [clear()] the store is empty and
    [get] returns [null] for every key. *)
Theorem clear_then_get (st : state) (k : text) (l : LocalStorageConfig) :
  fst (supportsLS st) = true ->
  fst (clear st) = VUndefined
  /\ storage (snd (clear st)) = []
  /\ get k l (snd (clear st)) = (Ret VNull, snd (clear st)).
Proof.
  intros Hok. destruct (supportsLS_true st Hok) as [Hh _].
  unfold clear. destruct (supportsLS st) as [ok st1]. cbn [fst snd] in *.
  subst ok. cbn [negb fst snd]. repeat split.
  apply get_falsy_item; [exact Hh | reflexivity].
Qed.

(** ** What [get] and [set] leave alone *)

Lemma get_state_cases (st : state) (k : text) (l : LocalStorageConfig) :
  hasLS st = Some true ->
  snd (get k l st) = st
  \/ snd (get k l st) = with_storage st (removeItem k (storage st)).
Proof.
  intros Hh. unfold get. rewrite (supportsLS_probed st Hh). cbn [negb].
  destruct (falsy_item _); [left; reflexivity|].
  destruct (JSON_parse _) as [item|]; [|left; reflexivity].
  destruct (negb (isObject item && in_op APX item)); [left; reflexivity|].
  destruct (js_gt _ _); [right | left]; reflexivity.
Qed.

(** X6: on an available store, [get(k)] writes nothing but the removal of
    [k] itself: under every other key the store holds what the probe left
    there, and the timer registry is as the probe left it. *)
Theorem get_touches_only_its_key (st : state) (k k' : text)
  (l : LocalStorageConfig) :
  fst (supportsLS st) = true -> text_eqb k' k = false ->
  getItem k' (storage (snd (get k l st)))
  = after_probe st (getItem k' (storage st))
  /\ cbRefs (snd (get k l st)) = cbRefs (snd (supportsLS st)).
Proof.
  intros Hok Hk. rewrite (get_unfold_probe st k l Hok).
  destruct (supportsLS_true st Hok) as [Hh [_ [_ Hg]]].
  destruct (get_state_cases (snd (supportsLS st)) k l Hh) as [-> | ->].
  - split; [apply Hg | reflexivity].
  - cbn [storage with_storage cbRefs].
    rewrite getItem_removeItem, Hk. split; [apply Hg | reflexivity].
Qed.

(** X7: on an available store, a [set(k, ...)] whose effective
    configuration asks for no TTL touches the entry of [k] only, whether it
    succeeds or not: every other key holds what the probe left there, and
    no scheduler pass runs (the timer registry is as the probe left it). *)
Theorem set_without_ttl_frame (st : state) (k k' : text) (v : value)
  (l : LocalStorageConfig) :
  fst (supportsLS st) = true ->
  hasTTL_of (merge (config st) l) = None -> text_eqb k' k = false ->
  getItem k' (storage (snd (set k v l st)))
  = after_probe st (getItem k' (storage st))
  /\ cbRefs (snd (set k v l st)) = cbRefs (snd (supportsLS st)).
Proof.
  intros Hok Ht Hk. destruct (supportsLS_true st Hok) as [_ [Hc [_ Hg]]].
  unfold set. destruct (supportsLS st) as [ok st1]. cbn [fst snd] in *.
  subst ok. cbn [negb]. rewrite Hc, Ht.
  destruct (encode v (merge (config st) l) (now st1)); cbn [snd].
  - cbn [storage with_storage cbRefs]. rewrite getItem_setItem, Hk.
    split; [apply Hg | reflexivity].
  - split; [apply Hg | reflexivity].
Qed.

(** ** Edge values of the TTL and the callback *)

Lemma encode_ext (v : value) (c c' : LocalStorageConfig) (n : Z) :
  hasTTL_of c = hasTTL_of c' -> encrypt c = encrypt c' ->
  encrypter c = encrypter c' -> secret c = secret c' ->
  (hasTTL_of c <> None -> cb c = cb c') ->
  encode v c n = encode v c' n.
Proof.
  intros Ht He Hf Hs Hcb. unfold encode. rewrite <- Ht, <- He, <- Hf, <- Hs.
  destruct (hasTTL_of c) as [t|].
  - rewrite <- Hcb by discriminate. reflexivity.
  - reflexivity.
Qed.

Lemma set_ext (st : state) (k : text) (v : value)
  (l l' : LocalStorageConfig) :
  (forall g,
      hasTTL_of (merge g l) = hasTTL_of (merge g l')
      /\ (forall n, encode v (merge g l) n = encode v (merge g l') n)) ->
  set k v l st = set k v l' st.
Proof.
  intros H. unfold set. destruct (supportsLS st) as [ok st1].
  destruct (negb ok); [reflexivity|].
  destruct (H (config st1)) as [Ht He]. rewrite He, Ht. reflexivity.
Qed.

(** X9: a negative [ttl] override disables expiry exactly like [ttl: null]
    (the process default is not used either), and the override [ttl: 0]
    behaves exactly like an omitted [ttl]. *)
Theorem nonpositive_ttl (st : state) (k : text) (v : value)
  (l : LocalStorageConfig) (n : Z) :
  n < 0 ->
  set k v (with_ttl l (TtlNum n)) st = set k v (with_ttl l TtlNull) st
  /\ set k v (with_ttl l (TtlNum 0)) st
     = set k v (with_ttl l TtlUndefined) st.
Proof.
  intros Hn. split; apply set_ext; intros g.
  - assert (E : hasTTL_of (merge g (with_ttl l (TtlNum n)))
                = hasTTL_of (merge g (with_ttl l TtlNull))).
    { assert (E0 : (n =? 0) = false) by (apply Z.eqb_neq; lia).
      assert (E1 : (0 <? n) = false) by (apply Z.ltb_ge; lia).
      unfold hasTTL_of. cbn [merge ttl with_ttl merge_ttl].
      rewrite E0. cbv iota. rewrite E1, andb_false_r. reflexivity. }
    split; [exact E|]. intros m. apply encode_ext; auto.
  - split; [reflexivity|]. intros m. reflexivity.
Qed.

(** X14: a callback without a TTL is ignored: when the effective
    configuration asks for no TTL, [set] does the same whatever callback
    the override carries. *)
Theorem callback_without_ttl_ignored (st : state) (k : text) (v : value)
  (l : LocalStorageConfig) (f : option text) :
  hasTTL_of (merge (config st) l) = None ->
  set k v (with_cb l f) st = set k v l st.
Proof.
  intros Ht. unfold set. destruct (supportsLS_env st) as [Hc _].
  destruct (supportsLS st) as [ok st1]. cbn [snd] in Hc.
  destruct (negb ok); [reflexivity|]. rewrite Hc.
  assert (E : encode v (merge (config st) (with_cb l f)) (now st1)
              = encode v (merge (config st) l) (now st1))
    by (apply encode_ext; try reflexivity; intros Hne; contradiction).
  rewrite E.
  change (hasTTL_of (merge (config st) (with_cb l f)))
    with (hasTTL_of (merge (config st) l)).
  reflexivity.
Qed.

(** ** Values without a JSON form, and overwriting *)

(** X15: on an available store with the default configuration, [set] of a
    value that has no JSON form ([undefined], a function) without TTL
    reports success and stores the text [undefined]; a following [get] of
    the key raises, because that text is not JSON. *)
Theorem set_value_without_json_form (st : state) (k : text) (v : value) :
  fst (supportsLS st) = true -> config st = default_config ->
  has_json_form v = false ->
  fst (set k v empty_config st) = VUndefined
  /\ getItem k (storage (snd (set k v empty_config st)))
     = Some (lit "undefined")
  /\ fst (get k empty_config (snd (set k v empty_config st))) = Throw.
Proof.
  intros Hok Hc Hf. destruct (supportsLS_true st Hok) as [Hh [Hc1 _]].
  assert (E : set k v empty_config st
              = (VUndefined,
                 with_storage (snd (supportsLS st))
                   (setItem k (lit "undefined")
                      (storage (snd (supportsLS st)))))).
  { unfold set. destruct (supportsLS st) as [ok st1]. cbn [fst snd] in *.
    subst ok. cbn [negb]. rewrite Hc1, Hc. unfold encode.
    cbn [merge default_config empty_config hasTTL_of ttl merge_ttl
           encrypt merge_encrypt is_true cb or_else bind].
    unfold JSON_stringify. rewrite (serialize_no_form v Hf). reflexivity. }
  rewrite E. cbn [fst snd]. split; [reflexivity|].
  assert (Eg : getItem k
                 (storage (with_storage (snd (supportsLS st))
                             (setItem k (lit "undefined")
                                (storage (snd (supportsLS st))))))
               = Some (lit "undefined"))
    by (cbn [storage with_storage]; rewrite getItem_setItem, text_eqb_refl;
        reflexivity).
  split; [exact Eg|].
  unfold get. rewrite supportsLS_probed by exact Hh. cbn [negb].
  rewrite Eg. reflexivity.
Qed.

Lemma setItem_length (k t t' : text) (s : list (text * text)) :
  getItem k s = Some t' -> List.length (setItem k t s) = List.length s.
Proof.
  induction s as [|[k0 t0] r IH]; simpl; [discriminate|].
  destruct (text_eqb k k0); simpl; [reflexivity|].
  intros H. rewrite IH by assumption. reflexivity.
Qed.

Lemma get_fst_ext (a b : state) (k : text) (l : LocalStorageConfig) :
  hasLS a = Some true -> hasLS b = Some true ->
  getItem k (storage a) = getItem k (storage b) ->
  config a = config b -> now a = now b ->
  fst (get k l a) = fst (get k l b).
Proof.
  intros Ha Hb Hg Hc Hn. unfold get.
  rewrite (supportsLS_probed a Ha), (supportsLS_probed b Hb). cbn [negb].
  rewrite Hg, Hc, Hn.
  destruct (falsy_item _); [reflexivity|].
  destruct (JSON_parse _) as [item|]; [|reflexivity].
  destruct (negb (isObject item && in_op APX item)); [reflexivity|].
  destruct (js_gt _ _); reflexivity.
Qed.

(** X16: on an available store with the default configuration and no TTL,
    a second [set] under the same key replaces the entry in place (the
    store does not grow), and [get] then returns what it returns after a
    single [set] of the second value; that is the round trip of the second
    value when this round trip is not an object with a property under the
    marker key. *)
Theorem last_write_wins (st : state) (k : text) (v1 v2 : value)
  (t1 t2 : text) :
  fst (supportsLS st) = true -> config st = default_config ->
  JSON_stringify v1 = Ret (Some t1) -> JSON_stringify v2 = Ret (Some t2) ->
  let st1 := snd (set k v1 empty_config st) in
  let st2 := snd (set k v2 empty_config st1) in
  getItem k (storage st2) = Some t2
  /\ List.length (storage st2) = List.length (storage st1)
  /\ fst (get k empty_config st2)
     = fst (get k empty_config (snd (set k v2 empty_config st)))
  /\ (wf_value v2 = true -> in_op APX (codec v2) = false ->
      fst (get k empty_config st2) = Ret (codec v2)).
Proof.
  intros Hok Hc Hs1 Hs2 st1 st2.
  destruct (supportsLS_true st Hok) as [Hh [Hc1 _]].
  assert (E1 : st1 = with_storage (snd (supportsLS st))
                       (setItem k t1 (storage (snd (supportsLS st)))))
    by (unfold st1; rewrite (set_plain st k v1 t1 Hok Hc Hs1); reflexivity).
  assert (Hh1 : hasLS st1 = Some true) by (rewrite E1; exact Hh).
  assert (Hok1 : fst (supportsLS st1) = true)
    by (rewrite (supportsLS_probed st1 Hh1); reflexivity).
  assert (Hc2 : config st1 = default_config)
    by (rewrite E1; cbn [config with_storage]; congruence).
  assert (E2 : st2 = with_storage st1 (setItem k t2 (storage st1))).
  { unfold st2. rewrite (set_plain st1 k v2 t2 Hok1 Hc2 Hs2).
    rewrite (supportsLS_probed st1 Hh1). reflexivity. }
  assert (Hg2 : getItem k (storage st2) = Some t2)
    by (rewrite E2; cbn [storage with_storage];
        rewrite getItem_setItem, text_eqb_refl; reflexivity).
  split; [exact Hg2|]. split; [|split].
  - rewrite E2. cbn [storage with_storage].
    apply (setItem_length k t2 t1). rewrite E1. cbn [storage with_storage].
    rewrite getItem_setItem, text_eqb_refl. reflexivity.
  - rewrite (set_plain st k v2 t2 Hok Hc Hs2). cbn [snd].
    apply get_fst_ext.
    + rewrite E2. exact Hh1.
    + exact Hh.
    + rewrite Hg2. cbn [storage with_storage].
      rewrite getItem_setItem, text_eqb_refl. reflexivity.
    + rewrite E2, E1. reflexivity.
    + rewrite E2, E1. reflexivity.
  - intros Hwf Hm. unfold st2.
    rewrite (get_after_set_plain st1 k v2 t2 Hok1 Hc2 Hwf Hs2), Hm.
    reflexivity.
Qed.

(** ** The scheduler pass without force *)

(** X10: on an available store, [flush()] without force removes the entry
    of a TTL envelope exactly when its expiry is in the past. *)
Theorem flush_evicts_expired (st : state) (k t : text) (item : value)
  (e : Z) :
  fst (supportsLS st) = true ->
  getItem k (storage st) = Some t -> JSON_parse t = Ret item ->
  in_op APX item = true -> prop (lit "ttl") item = VNum e ->
  getItem k (storage (flush false st))
  = if e <? now st then None else Some t.
Proof.
  intros Hok Hg Hp Hm Ht. rewrite (flush_getItem false st k Hok), Hg.
  pose proof (evicted_envelope (now st) e t item Hp Hm Ht) as E.
  unfold after_probe. destruct (hasLS st); cbn [after_flush]; rewrite E.
  - reflexivity.
  - destruct (e <? now st); cbn [after_flush]; [reflexivity|].
    rewrite E. reflexivity.
Qed.

(** X11: on an available store, [flush], forced or not, never removes or
    rewrites an entry whose text does not parse to an object with the
    marker key (a plain value, an object without the marker key, an
    unparseable foreign text, the empty text), and never adds an entry. *)
Theorem flush_keeps_other_entries (st : state) (k : text) (force : bool) :
  fst (supportsLS st) = true ->
  match getItem k (storage st) with
  | Some t => is_envelope t = false
  | None => True
  end ->
  getItem k (storage (flush force st)) = getItem k (storage st).
Proof.
  intros Hok Hne. rewrite (flush_getItem force st k Hok).
  destruct (getItem k (storage st)) as [t|].
  - assert (E : forall f n, evicted f n t = false).
    { intros f n. unfold evicted. unfold is_envelope in Hne.
      destruct t as [|c t]; [reflexivity|].
      destruct (JSON_parse (c :: t)); [|reflexivity].
      rewrite Hne. reflexivity. }
    unfold after_probe. destruct (hasLS st); cbn [after_flush];
      rewrite ?E; cbn [after_flush]; rewrite ?E; reflexivity.
  - unfold after_probe. destruct (hasLS st); reflexivity.
Qed.

(** ** The timer registry *)

Lemma flush_key_force_cbRefs (st : state) (key : text) :
  cbRefs (flush_key true st key) = cbRefs st.
Proof.
  unfold flush_key.
  destruct (falsy_item _); [reflexivity|].
  destruct (JSON_parse _) as [item|]; [|reflexivity].
  destruct (isObject item && in_op APX item); [|reflexivity].
  rewrite orb_true_r. reflexivity.
Qed.

Lemma flush_keys_force_cbRefs (keys : list text) :
  forall st, cbRefs (fold_left (flush_key true) keys st) = cbRefs st.
Proof.
  induction keys as [|key r IH]; intros st; simpl; [reflexivity|].
  rewrite IH. apply flush_key_force_cbRefs.
Qed.

(** X12: on an initialised store, [poll(true)] leaves the timer registry
    empty, whatever it held before: every handle is dropped and the forced
    pass arms none. *)
Theorem poll_force_empties_registry (st : state) :
  hasLS st = Some true -> cbRefs (poll true st) = [].
Proof.
  intros Hh. unfold poll, flush.
  rewrite (supportsLS_probed (with_cbRefs st [])) by exact Hh.
  unfold flush_all. rewrite flush_keys_force_cbRefs. reflexivity.
Qed.

Lemma flush_key_cases (cur : state) (key : text) :
  cbRefs (flush_key false cur key) = cbRefs cur
  \/ exists t item,
      getItem key (storage cur) = Some t
      /\ JSON_parse t = Ret item
      /\ in_op APX item = true
      /\ js_gt (now cur) (prop (lit "ttl") item) = false
      /\ truthy (prop (lit "cb") item) = true
      /\ cbRefs (flush_key false cur key)
         = cbRefs cur
           ++ [mkTimer key
                 (match ToNumber (prop (lit "ttl") item) with
                  | Some e => Some (e - now cur)
                  | None => None
                  end)
                 (prop (lit "cb") item)].
Proof.
  unfold flush_key.
  destruct (getItem key (storage cur)) as [[|c t]|] eqn:Eg; cbn [falsy_item];
    try (left; reflexivity).
  destruct (JSON_parse (c :: t)) as [item|] eqn:Ep; [|left; reflexivity].
  rewrite isObject_in_op.
  destruct (in_op APX item) eqn:Em; [|left; reflexivity].
  rewrite orb_false_r.
  destruct (js_gt (now cur) (prop (lit "ttl") item)) eqn:Ej;
    [left; reflexivity|].
  destruct (truthy (prop (lit "cb") item)) eqn:Et; [|left; reflexivity].
  right. exists (c :: t), item. repeat split; assumption.
Qed.

Lemma flush_keys_timers (st0 : state) (keys : list text) :
  forall cur,
    now cur = now st0 ->
    (forall k, getItem k (storage cur) = None
               \/ getItem k (storage cur) = getItem k (storage st0)) ->
    Forall (timer_of_store st0) (cbRefs cur) ->
    Forall (timer_of_store st0)
      (cbRefs (fold_left (flush_key false) keys cur)).
Proof.
  induction keys as [|key r IH]; intros cur Hn Hs Hf; simpl; [exact Hf|].
  apply IH.
  - destruct (flush_key_env false cur key) as [_ [_ [_ E]]]. congruence.
  - intros k. rewrite flush_key_getItem.
    destruct (text_eqb k key); [|apply Hs].
    destruct (Hs k) as [E | E]; rewrite E.
    + left; reflexivity.
    + unfold after_flush. destruct (getItem k (storage st0)); [|auto].
      destruct (evicted false (now cur) l); auto.
  - destruct (flush_key_cases cur key)
      as [E | [t [item [Hg [Hp [Hm [Hj [Ht E]]]]]]]]; rewrite E.
    + exact Hf.
    + apply Forall_app. split; [exact Hf|]. constructor; [|constructor].
      exists t, item. cbn [timer_key timer_cb timer_delay].
      destruct (Hs key) as [E0 | E0]; [congruence|].
      rewrite <- E0, <- Hn. repeat split; assumption.
Qed.

(** X13: on an initialised store, every timer in the registry after
    [poll()] belongs to the store: its key holds an envelope that has not
    expired and carries a callback, and the timer carries that callback and
    the time left until the expiry.  No handle from before survives. *)
Theorem poll_timers_belong (st : state) :
  hasLS st = Some true ->
  Forall (timer_of_store st) (cbRefs (poll false st)).
Proof.
  intros Hh. unfold poll, flush.
  rewrite (supportsLS_probed (with_cbRefs st [])) by exact Hh.
  unfold flush_all. apply flush_keys_timers.
  - reflexivity.
  - intros k. right. reflexivity.
  - constructor.
Qed.

Lemma flush_keys_timer_keys (keys : list text) :
  forall cur,
    NoDup keys -> NoDup (map timer_key (cbRefs cur)) ->
    (forall k, In k keys -> ~ In k (map timer_key (cbRefs cur))) ->
    NoDup (map timer_key (cbRefs (fold_left (flush_key false) keys cur))).
Proof.
  induction keys as [|key r IH]; intros cur Hk Hn Hd; simpl; [exact Hn|].
  inversion Hk as [|? ? Hnotin Hr]; subst.
  destruct (flush_key_cases cur key) as [E | [t [item [_ [_ [_ [_ [_ E]]]]]]]].
  - apply IH; [exact Hr | rewrite E; exact Hn |].
    intros k Hin. rewrite E. apply Hd. right. exact Hin.
  - apply IH; [exact Hr | |].
    + rewrite E, map_app. cbn [map timer_key].
      apply NoDup_app; [exact Hn | repeat constructor; intros [] | ].
      intros k Hin [<- | []]. apply (Hd key); [left; reflexivity | exact Hin].
    + intros k Hin. rewrite E, map_app. cbn [map timer_key].
      intros Hin'. apply in_app_or in Hin'. destruct Hin' as [H1 | [<- | []]].
      * apply (Hd k); [right; exact Hin | exact H1].
      * contradiction.
Qed.

(** X17: on an initialised store whose keys are distinct, the registry
    after [poll()] holds at most one timer per key. *)
Theorem poll_one_timer_per_key (st : state) :
  hasLS st = Some true -> NoDup (map fst (storage st)) ->
  NoDup (map timer_key (cbRefs (poll false st))).
Proof.
  intros Hh Hk. unfold poll, flush.
  rewrite (supportsLS_probed (with_cbRefs st [])) by exact Hh.
  unfold flush_all. apply flush_keys_timer_keys.
  - exact Hk.
  - constructor.
  - intros k _ [].
Qed.

(** ** [set] with a TTL, then time passes *)











(** ** The code units of a serialized value *)









(** ** The obfuscator and its inverse *)






(** X20: on an available store, an entry that was stored without
    obfuscation and parses to a value that is neither a string, an array
    nor an object with the marker key (a number, a boolean, [null], an
    object without the marker key) is
    returned as stored by a [get] that asks for deobfuscation with the
    built-in decrypter: the decrypter throws on it and [get] keeps the
    parsed value. *)
Theorem get_plain_entry_with_decrypt (st : state) (k : text)
  (l : LocalStorageConfig) (t : text) (item : value) :
  fst (supportsLS st) = true ->
  getItem k (storage st) = Some t -> JSON_parse t = Ret item ->
  in_op APX item = false -> not_iterable item = true ->
  decrypter_of (merge (config st) l) = Some decrypter ->
  get k l st = (Ret item, snd (supportsLS st)).
Proof.
  intros Hok Hg Hp Hm Hi Hd.
  rewrite (get_unfold_probe st k l Hok).
  destruct (supportsLS_true st Hok) as [Hh [Hc [_ Hs]]].
  specialize (Hs k). rewrite Hg in Hs.
  assert (Hs' : getItem k (storage (snd (supportsLS st))) = Some t).
  { rewrite Hs. unfold after_probe. destruct (hasLS st); [reflexivity|].
    cbn [after_flush]. rewrite (evicted_parsed _ t item Hp), Hm.
    reflexivity. }
  rewrite (get_entry _ k l t item Hh Hs' Hp). cbv zeta.
  rewrite Hm. cbn [negb]. rewrite Hc.
  rewrite <- Hm at 1. rewrite reverse_throw; [reflexivity|].
  rewrite Hm, Hd. cbn [call]. unfold decrypter, obfus.
  destruct item; try discriminate Hi; reflexivity.
Qed.

(** ** The further properties at sample inputs *)

Lemma unavailable_degrades_witness :
  fst (supportsLS (blocked sample_content)) = false
  /\ get (lit "live") empty_config (blocked sample_content)
     = (Ret VNull, snd (supportsLS (blocked sample_content)))
  /\ storage (poll true (blocked sample_content)) = sample_content.
Proof.
  split; [reflexivity|].
  destruct (unavailable_degrades (blocked sample_content) (lit "live")
              VNull empty_config true eq_refl)
    as [_ [H2 [_ [_ [_ [_ H7]]]]]].
  split; [exact H2 | exact H7].
Defined.

Lemma remove_then_get_witness :
  fst (supportsLS (fresh sample_content)) = true
  /\ get (lit "live") empty_config
       (snd (remove (lit "live") (fresh sample_content)))
     = (Ret VNull, snd (remove (lit "live") (fresh sample_content))).
Proof.
  split; [reflexivity|].
  exact (proj1 (proj2 (remove_then_get (fresh sample_content) (lit "live")
                         (lit "plain") empty_config eq_refl))).
Defined.

Lemma clear_then_get_witness :
  fst (supportsLS (fresh sample_content)) = true
  /\ storage (snd (clear (fresh sample_content))) = [].
Proof.
  split; [reflexivity|].
  exact (proj1 (proj2 (clear_then_get (fresh sample_content) (lit "live")
                         empty_config eq_refl))).
Defined.

Lemma get_absent_or_empty_witness :
  fst (supportsLS (ready [(lit "e", [])])) = true
  /\ falsy_item (getItem (lit "e") (storage (ready [(lit "e", [])]))) = true
  /\ get (lit "e") empty_config (ready [(lit "e", [])])
     = (Ret VNull, snd (supportsLS (ready [(lit "e", [])]))).
Proof.
  split; [reflexivity|]. split; [reflexivity|].
  exact (get_absent_or_empty (ready [(lit "e", [])]) (lit "e") empty_config
           eq_refl eq_refl).
Defined.

Lemma get_touches_only_its_key_witness :
  fst (supportsLS (ready sample_content)) = true
  /\ text_eqb (lit "live") (lit "old") = false
  /\ getItem (lit "live")
       (storage (snd (get (lit "old") empty_config (ready sample_content))))
     = after_probe (ready sample_content)
         (getItem (lit "live") (storage (ready sample_content))).
Proof.
  split; [reflexivity|]. split; [reflexivity|].
  exact (proj1 (get_touches_only_its_key (ready sample_content) (lit "old")
                  (lit "live") empty_config eq_refl eq_refl)).
Defined.

Lemma set_without_ttl_frame_witness :
  fst (supportsLS (ready sample_content)) = true
  /\ hasTTL_of (merge (config (ready sample_content)) empty_config) = None
  /\ text_eqb (lit "live") (lit "k") = false
  /\ getItem (lit "live")
       (storage (snd (set (lit "k") VCyclic empty_config
                        (ready sample_content))))
     = after_probe (ready sample_content)
         (getItem (lit "live") (storage (ready sample_content))).
Proof.
  split; [reflexivity|]. split; [reflexivity|]. split; [reflexivity|].
  exact (proj1 (set_without_ttl_frame (ready sample_content) (lit "k")
                  (lit "live") VCyclic empty_config eq_refl eq_refl
                  eq_refl)).
Defined.


Lemma nonpositive_ttl_witness :
  -3 < 0
  /\ set (lit "k") sample_value (with_ttl empty_config (TtlNum (-3)))
       (ready sample_content)
     = set (lit "k") sample_value (with_ttl empty_config TtlNull)
         (ready sample_content).
Proof.
  split; [lia|].
  exact (proj1 (nonpositive_ttl (ready sample_content) (lit "k")
                  sample_value empty_config (-3) eq_refl)).
Defined.

Lemma flush_evicts_expired_witness :
  getItem (lit "old") (storage (fresh sample_content))
  = Some (text_of (envelope (VStr (lit "w")) 500 None))
  /\ getItem (lit "old") (storage (flush false (fresh sample_content)))
     = None.
Proof.
  split; [reflexivity|].
  exact (flush_evicts_expired (fresh sample_content) (lit "old")
           (text_of (envelope (VStr (lit "w")) 500 None))
           (envelope (VStr (lit "w")) 500 None) 500
           eq_refl eq_refl eq_refl eq_refl eq_refl).
Defined.

Lemma flush_keeps_other_entries_witness :
  is_envelope (lit "abc") = false
  /\ getItem (lit "word") (storage (flush true (fresh sample_content)))
     = getItem (lit "word") (storage (fresh sample_content)).
Proof.
  split; [reflexivity|].
  exact (flush_keeps_other_entries (fresh sample_content) (lit "word") true
           eq_refl eq_refl).
Defined.

Lemma poll_force_empties_registry_witness :
  cbRefs (poll false (ready timer_content)) <> []
  /\ cbRefs (poll true (poll false (ready timer_content))) = [].
Proof.
  split; [discriminate|].
  exact (poll_force_empties_registry (poll false (ready timer_content))
           eq_refl).
Defined.

Lemma poll_timers_belong_witness :
  hasLS (ready timer_content) = Some true
  /\ Forall (timer_of_store (ready timer_content))
       (cbRefs (poll false (ready timer_content))).
Proof.
  split; [reflexivity|].
  exact (poll_timers_belong (ready timer_content) eq_refl).
Defined.

Lemma poll_one_timer_per_key_witness :
  NoDup (map fst (storage (ready timer_content)))
  /\ NoDup (map timer_key (cbRefs (poll false (ready timer_content)))).
Proof.
  assert (H : NoDup (map fst (storage (ready timer_content)))).
  { repeat constructor; cbn; intros H;
      repeat (destruct H as [H | H]; [discriminate H|]); exact H. }
  split; [exact H|].
  exact (poll_one_timer_per_key (ready timer_content) eq_refl H).
Defined.

Lemma callback_without_ttl_ignored_witness :
  hasTTL_of (merge (config (ready [])) empty_config) = None
  /\ set (lit "k") sample_value (with_cb empty_config (Some (lit "f")))
       (ready [])
     = set (lit "k") sample_value empty_config (ready []).
Proof.
  split; [reflexivity|].
  exact (callback_without_ttl_ignored (ready []) (lit "k") sample_value
           empty_config (Some (lit "f")) eq_refl).
Defined.

Lemma set_value_without_json_form_witness :
  has_json_form (VFun (lit "f")) = false
  /\ fst (get (lit "k") empty_config
            (snd (set (lit "k") (VFun (lit "f")) empty_config
                    (fresh sample_content))))
     = Throw.
Proof.
  split; [reflexivity|].
  exact (proj2 (proj2 (set_value_without_json_form (fresh sample_content)
                         (lit "k") (VFun (lit "f")) eq_refl eq_refl
                         eq_refl))).
Defined.

Lemma last_write_wins_witness :
  fst (get (lit "k") empty_config
         (snd (set (lit "k") marker_object empty_config
                 (snd (set (lit "k") (VStr (lit "a")) empty_config
                         (fresh sample_content))))))
  = fst (get (lit "k") empty_config
           (snd (set (lit "k") marker_object empty_config
                   (fresh sample_content))))
  /\ fst (get (lit "k") empty_config
            (snd (set (lit "k") sample_value empty_config
                    (snd (set (lit "k") (VStr (lit "a")) empty_config
                            (fresh sample_content))))))
     = Ret (codec sample_value).
Proof.
  split.
  - exact (proj1 (proj2 (proj2
             (last_write_wins (fresh sample_content) (lit "k")
                (VStr (lit "a")) marker_object
                (text_of (VStr (lit "a"))) (text_of marker_object)
                eq_refl eq_refl eq_refl eq_refl)))).
  - exact (proj2 (proj2 (proj2
             (last_write_wins (fresh sample_content) (lit "k")
                (VStr (lit "a")) sample_value
                (text_of (VStr (lit "a"))) (text_of sample_value)
                eq_refl eq_refl eq_refl eq_refl))) eq_refl eq_refl).
Defined.



Lemma get_plain_entry_with_decrypt_witness :
  getItem (lit "count") (storage (ready timer_content))
  = Some (text_of (VNum 7))
  /\ get (lit "count") encrypt_config (ready timer_content)
     = (Ret (VNum 7), snd (supportsLS (ready timer_content))).
Proof.
  split; [reflexivity|].
  exact (get_plain_entry_with_decrypt (ready timer_content) (lit "count")
           encrypt_config (text_of (VNum 7)) (VNum 7)
           eq_refl eq_refl eq_refl eq_refl eq_refl eq_refl).
Defined.
